(** * vtq: the coordinator of the task queue

    A shallow embedding of [src/vtq/coordinator/coordinator.py].

    The SQL tables behind the peewee models are lists of rows, in insertion
    order.  Every method of [Coordinator] is a computation in a small
    state-and-exception monad over the [World]: the database, the readings
    of [time.time()] still to come, the identifiers the task model will
    hand out, and the notifications sent on the channel.

    Timestamps are rationals ([Qc]), the values binary64 floats have.  The
    one computation on them that rounds at the scale of epoch seconds, the
    sum [time.time() + delay_millis / 1000.0] of [enqueue], is rounded as
    binary64 rounds it ([float]); the sum of [_read], an integer timeout
    added to a reading of the clock, is taken exactly.  The [with self._db:]
    blocks are transactions; in a
    sequential run they matter only where an exception can leave the block,
    which happens in [enqueue] alone, so only there are they written out
    ([atomic]).  The calls of [print] and of the logger are left out. *)

From stdpp Require Import base decidable option list strings numbers.
From Stdlib Require Import ZArith QArith Qcanon.
From Stdlib Require Strings.Byte.

Open Scope Z_scope.

(** ** Timestamps *)

Definition Z2T (z : Z) : Qc := Q2Qc (inject_Z z).

(** ** Binary64 arithmetic *)

(** Python's [float], as far as [enqueue] uses it: the conversion of an
    [int], the division and the sum, each rounded to the nearest binary64
    number, ties to even, with subnormal numbers below [2**-1022].  A result
    of magnitude [2**1024] or more stands for an infinity: it compares with
    every binary64 number as the infinity does. *)
Module float.

(** The integer nearest to [x >= 0], ties to the even one. *)
Definition round_half_even (x : Q) : Z :=
  let q := Qnum x / Zpos (Qden x) in
  match 2 * (Qnum x mod Zpos (Qden x)) ?= Zpos (Qden x) with
  | Lt => q
  | Gt => q + 1
  | Eq => if Z.even q then q else q + 1
  end.

(** [floor (log2 x)] for [x > 0]. *)
Definition ilog2 (x : Q) : Z :=
  let e := Z.log2 (Qnum x) - Z.log2 (Zpos (Qden x)) in
  if Qle_bool (2 ^ e) x then e else e - 1.

(** [x > 0] rounded to 53 significant bits, or to a multiple of [2**-1074]. *)
Definition round_pos (x : Q) : Q :=
  let e := Z.max (ilog2 x - 52) (-1074) in
  (inject_Z (round_half_even (x / 2 ^ e)) * 2 ^ e)%Q.

Definition round (x : Q) : Q :=
  match Qnum x with
  | 0 => 0%Q
  | Zpos _ => round_pos x
  | Zneg _ => (- round_pos (- x))%Q
  end.

Definition finite (x : Q) : bool :=
  negb (Qle_bool (2 ^ 1024) x) && negb (Qle_bool x (- 2 ^ 1024)).

(** [float(z)]: [None] is [OverflowError], int too large to convert. *)
Definition of_int (z : Z) : option Qc :=
  let r := round (inject_Z z) in
  if finite r then Some (Q2Qc r) else None.

(** [x / y] and [x + y] on floats. *)
Definition div (x y : Qc) : Qc := Q2Qc (round (x / y)).
Definition add (x y : Qc) : Qc := Q2Qc (round (x + y)).

End float.

(** The integers the store can hold: 64-bit, signed. *)
Definition int64 (z : Z) : Prop := - 2 ^ 63 ≤ z < 2 ^ 63.

(** [_INVISIBLE_TIMESTAMP_SECONDS = 2**31 - 1] *)
Definition _INVISIBLE_TIMESTAMP_SECONDS : Z := 2 ^ 31 - 1.

(** ** Rows of the three tables *)

Module model.

(** Modelled from the spec: the fields of the virtual queue model
    ([vtq/model.py] is not part of the sources); the names are those
    [_enqueue_task_with_new_vq] and [_read] use; [hidden] is false on a
    new row. *)
Record VirtualQueue := mkVQ {
  name : string;
  vq_priority : Z;
  bucket_name : string;
  bucket_weight : Z;
  visibility_timeout : Z;
  hidden : bool
}.

(** Modelled from the spec: the fields of the task model; the names are
    those the coordinator reads and writes. *)
Record Task := mkTask {
  id : string;
  data : list Byte.byte;
  vqueue_name : string;
  priority : Z;
  status : Z;
  visible_at : Qc;
  queued_at : Qc;
  ended_at : option Qc
}.

(** The columns [nack] fills in (spelled as in the source). *)
Record TaskError := mkTaskError {
  task_id : string;
  error_messsage : string;
  happended_at : Qc
}.

(** Modelled from the spec: a new task is PENDING, and PENDING is any
    status below 10; the model's default is taken to be 0. *)
Definition DEFAULT_STATUS : Z := 0.

End model.

(** Modelled from the spec: [vtq.task.Task] ([vtq/task.py] is not part of the
    sources), what [receive] hands to the consumer; [_read] builds it from
    an identifier and a payload. *)
Record Task := mkTask { task_id : string; task_data : list Byte.byte }.

(** Modelled from the spec: the policy the configuration fetcher returns for
    a queue name ([vtq/configuration.py] is not part of the sources); the
    fields are those [_enqueue_task_with_new_vq] reads. *)
Record Bucket := mkBucket { bkt_name : string; bkt_weight : Z }.
Record VQConfig := mkVQConfig {
  cfg_priority : Z;
  cfg_bucket : Bucket;
  cfg_visibility_timeout_seconds : Z
}.

(** ** Exceptions *)

(** [IntegrityError] is peewee's; [OverflowError] is what Python raises for
    an [int] too large for a float or for a 64-bit column of the store.
    Modelled from the spec: [ConfigurationMissing], the failure of the
    configuration provider for a queue name without a policy. *)
Inductive exn :=
| NotImplementedError
| IntegrityError (msg : string)
| OverflowError
| ConfigurationMissing.

Inductive result (A : Type) :=
| Ok (a : A)
| Raise (e : exn).
Arguments Ok {A} a.
Arguments Raise {A} e.

(** ** The database and the world *)

Record Database := mkDB {
  vqs : list model.VirtualQueue;
  tasks : list model.Task;
  task_errors : list model.TaskError
}.

(** What a [Coordinator] object holds besides the database handle:
    [self._config_fetcher.configuration_for], which returns a policy or
    raises. *)
Record Coordinator := mkCoordinator {
  _config_fetcher : string -> result VQConfig
}.

Record World := mkWorld {
  db : Database;
  clock : nat -> Qc;       (* the n-th reading of time.time() *)
  ticks : nat;             (* readings taken so far *)
  id_supply : nat -> string; (* identifiers the task model assigns *)
  created : nat;           (* identifiers taken so far *)
  channel : list string    (* task ids sent on the channel, oldest first *)
}.

Definition set_db (w : World) (d : Database) : World :=
  mkWorld d (clock w) (ticks w) (id_supply w) (created w) (channel w).

(** ** The monad *)

Definition M (A : Type) : Type := World -> result A * World.

Definition ret {A} (a : A) : M A := fun w => (Ok a, w).
Definition raise {A} (e : exn) : M A := fun w => (Raise e, w).
Definition bind {A B} (m : M A) (f : A -> M B) : M B :=
  fun w => match m w with
           | (Ok a, w') => f a w'
           | (Raise e, w') => (Raise e, w')
           end.

Declare Scope coord_scope.
Delimit Scope coord_scope with coord.
Notation "'let*' x ':=' m 'in' k" := (bind m (fun x => k))
  (at level 10, x name, m at level 100, k at level 200) : coord_scope.
Notation "'do' m 'in' k" := (bind m (fun _ => k))
  (at level 10, m at level 100, k at level 200) : coord_scope.
Open Scope coord_scope.

(** The current time, and the world after it has been read. *)
Definition now (w : World) : Qc := clock w (ticks w).
Definition tick (w : World) : World :=
  mkWorld (db w) (clock w) (S (ticks w)) (id_supply w) (created w) (channel w).

(** [time.time()] *)
Definition time_time : M Qc := fun w => (Ok (now w), tick w).

Definition get_db : M Database := fun w => (Ok (db w), w).
Definition put_db (d : Database) : M unit := fun w => (Ok tt, set_db w d).

(** [self._channel.send(task_id)] *)
Definition channel_send (tid : string) : M unit :=
  fun w => (Ok tt,
            mkWorld (db w) (clock w) (ticks w) (id_supply w) (created w) (channel w ++ [tid])).

(** The identifier the task model gives to a row it is about to insert. *)
Definition next_id : M string :=
  fun w => (Ok (id_supply w (created w)),
            mkWorld (db w) (clock w) (ticks w) (id_supply w) (S (created w)) (channel w)).

(** [try: m except exn as e: h e] *)
Definition try_except {A} (m : M A) (h : exn -> M A) : M A :=
  fun w => match m w with
           | (Ok a, w') => (Ok a, w')
           | (Raise e, w') => h e w'
           end.

(** ** Status codes *)

(** The status predicates of [vtq/coordinator/task.py] and of the task model,
    neither of which is part of the sources. *)
Module task_mod.

(** Modelled from the spec: [is_unstarted]; PENDING is any status below 10
    (the bound of the claiming update of [_read]). *)
Definition is_unstarted (status : Z) : bool := status <? 10.

(** Modelled from the spec: [is_wip]; LEASED is the one value 50, which
    [_read] writes. *)
Definition is_wip (status : Z) : bool := status =? 50.

(** Modelled from the spec: [is_succeeded]; SUCCEEDED is 100, which [ack]
    writes. *)
Definition is_succeeded (status : Z) : bool := status =? 100.

(** Modelled from the spec: [is_failed]; FAILED is 101, which [nack]
    writes. *)
Definition is_failed (status : Z) : bool := status =? 101.

End task_mod.

(** ** Queries *)

Definition Row : Type := model.Task * model.VirtualQueue.

(** [task_cls.select(task_cls, vq_cls).join(vq_cls)]: the inner join on the
    foreign key [task.vqueue_name = vq.name]. *)
Definition join (ts : list model.Task) (qs : list model.VirtualQueue) : list Row :=
  ts ≫= (λ t, pair t <$> filter (λ q, model.vqueue_name t = model.name q) qs).

(** [(~vq_cls.hidden) & (current_ts >= task_cls.visible_at)] *)
Definition available (current_ts : Qc) (r : Row) : Prop :=
  model.hidden r.2 = false ∧ (model.visible_at r.1 ≤ current_ts)%Qc.

Definition available_task_query (current_ts : Qc) (d : Database) : list Row :=
  filter (available current_ts) (join (tasks d) (vqs d)).

(** SQL [max]: NULL on no rows. *)
Definition sql_max (l : list Z) : option Z :=
  foldr (λ x acc, Some (from_option (Z.max x) x acc)) None l.

Definition max_vq_priority (current_ts : Qc) (d : Database) : option Z :=
  sql_max ((λ r : Row, model.vq_priority r.2) <$> available_task_query current_ts d).

(** [available_task_query.where(vq_cls.priority == max_vq_priority)]; a
    comparison with NULL selects nothing. *)
Definition priority_layer_query (current_ts : Qc) (d : Database) : list Row :=
  filter (λ r : Row, Some (model.vq_priority r.2) = max_vq_priority current_ts d)
         (available_task_query current_ts d).

(** [order_by(priority.desc(), queued_at.asc())]: [a] is not after [b]. *)
Definition order_le (a b : Row) : Prop :=
  model.priority b.1 < model.priority a.1
  ∨ (model.priority a.1 = model.priority b.1
     ∧ (model.queued_at a.1 ≤ model.queued_at b.1)%Qc).

#[global] Instance order_le_dec a b : Decision (order_le a b).
Proof. unfold order_le. apply _. Defined.

(** A stable insertion sort: rows that compare equal keep the order of the
    table. *)
Fixpoint order_insert (x : Row) (l : list Row) : list Row :=
  match l with
  | [] => [x]
  | y :: l' => if decide (order_le x y) then x :: y :: l' else y :: order_insert x l'
  end.

Definition order_by (l : list Row) : list Row := foldr order_insert [] l.

(** [.first()] *)
Definition first {A} (l : list A) : option A := head l.

(** The columns [_read] selects from the chosen row. *)
Record Candidate := mkCandidate {
  c_id : string;
  c_data : list Byte.byte;
  c_vqueue_name : string;
  c_priority : Z;
  vq_visibility_timeout : Z
}.

Definition select_columns (r : Row) : Candidate :=
  mkCandidate (model.id r.1) (model.data r.1) (model.vqueue_name r.1)
              (model.priority r.1) (model.visibility_timeout r.2).

Definition select_task (current_ts : Qc) (d : Database) : option Candidate :=
  select_columns <$> first (order_by (priority_layer_query current_ts d)).

(** [update(...).where(...).execute()]: the new rows and the number of rows
    that matched. *)
Definition update_where (P : model.Task -> Prop) `{!∀ t, Decision (P t)}
    (f : model.Task -> model.Task) (ts : list model.Task) : list model.Task * nat :=
  ((λ t, if decide (P t) then f t else t) <$> ts, length (filter P ts)).

(** [vq_cls.select(vq_cls.name).where(~vq_cls.hidden & (vq_cls.name == name))] *)
Definition vq_query (d : Database) (vqueue_name : string) : list string :=
  model.name <$> filter (λ q, model.hidden q = false ∧ model.name q = vqueue_name) (vqs d).

(** The [where] of the claiming update; a subquery used as a value is its
    first row, or NULL. *)
Definition claim_where (d : Database) (task : Candidate) (current_ts : Qc)
    (t : model.Task) : Prop :=
  head (vq_query d (c_vqueue_name task)) = Some (model.vqueue_name t)
  ∧ model.id t = c_id task
  ∧ model.status t < 10
  ∧ (model.visible_at t ≤ current_ts)%Qc.

Definition lease (task : Candidate) (current_ts : Qc) (t : model.Task) : model.Task :=
  model.mkTask (model.id t) (model.data t) (model.vqueue_name t) (model.priority t)
    50 (Z2T (vq_visibility_timeout task) + current_ts)%Qc
    (model.queued_at t) (model.ended_at t).

(** The claiming update of [_read], with its row count. *)
Definition claim (d : Database) (task : Candidate) (current_ts : Qc) : Database * nat :=
  let '(ts, n) := update_where (claim_where d task current_ts) (lease task current_ts) (tasks d) in
  (mkDB (vqs d) ts (task_errors d), n).

(** ** The coordinator *)

(** [_read]: the row count of the update is not looked at. *)
Definition _read (self : Coordinator) : M (option Task) :=
  let* current_ts := time_time in
  let* d := get_db in
  match select_task current_ts d with
  | None => ret None
  | Some task =>
      let* d := get_db in
      do put_db (claim d task current_ts).1 in
      ret (Some (mkTask (c_id task) (c_data task)))
  end.

(** The loop of [receive]; [fuel] bounds the number of iterations. *)
Fixpoint receive_loop (fuel : nat) (self : Coordinator) (max_number wait_time_seconds : Z)
    (tasks : list Task) : M (list Task) :=
  match fuel with
  | O => ret tasks
  | S fuel' =>
      if decide (Z.of_nat (length tasks) < max_number) then
        let* task := _read self in
        match task with
        | None =>
            if decide (tasks ≠ [] ∨ wait_time_seconds <= 0) then ret tasks
            else raise NotImplementedError
        | Some task =>
            receive_loop fuel' self max_number wait_time_seconds (tasks ++ [task])
        end
      else ret tasks
  end.

(** [receive]: every iteration that goes on appends a task, so [max_number]
    iterations are enough (see [receive_loop_fuel]). *)
Definition receive (self : Coordinator) (max_number wait_time_seconds : Z) : M (list Task) :=
  receive_loop (Z.to_nat max_number) self max_number wait_time_seconds [].

(** [_get_task_only_status]: the [id] and [status] columns of the first row
    with that id. *)
Record TaskStatus := mkTaskStatus { ts_id : string; ts_status : Z }.

Definition _get_task_only_status (task_id : string) : M (option TaskStatus) :=
  let* d := get_db in
  ret ((λ t, mkTaskStatus (model.id t) (model.status t))
         <$> first (filter (λ t, model.id t = task_id) (tasks d))).

(** [task.status = s; task.visible_at = v; task.ended_at = e; task.save()]:
    the object holds the primary key and these three fields only, so [save]
    updates these three columns of the rows with that key. *)
Definition finish (s : Z) (v e : Qc) (t : model.Task) : model.Task :=
  model.mkTask (model.id t) (model.data t) (model.vqueue_name t) (model.priority t)
    s v (model.queued_at t) (Some e).

Definition save_finished (task : TaskStatus) (s : Z) (v e : Qc) : M unit :=
  let* d := get_db in
  put_db (mkDB (vqs d)
               (update_where (λ t, model.id t = ts_id task) (finish s v e) (tasks d)).1
               (task_errors d)).

(** [self._task_error_cls.create(...)] *)
Definition create_task_error (task_id error_messsage : string) (happended_at : Qc) : M unit :=
  let* d := get_db in
  put_db (mkDB (vqs d) (tasks d)
               (task_errors d ++ [model.mkTaskError task_id error_messsage happended_at])).

Definition ack (self : Coordinator) (task_id : string) : M bool :=
  let* task := _get_task_only_status task_id in
  match task with
  | None => ret false
  | Some task =>
      if task_mod.is_succeeded (ts_status task) then ret true
      else if negb (task_mod.is_wip (ts_status task)) then ret false
      else
        let* now := time_time in
        do save_finished task 100 (Z2T _INVISIBLE_TIMESTAMP_SECONDS) now in
        ret true
  end.

Definition nack (self : Coordinator) (task_id error_messsage : string) : M bool :=
  let* task := _get_task_only_status task_id in
  match task with
  | None => ret false
  | Some task =>
      if task_mod.is_failed (ts_status task) then ret true
      else if negb (task_mod.is_wip (ts_status task)) then ret false
      else
        let* current_ts := time_time in
        do save_finished task 101 (Z2T _INVISIBLE_TIMESTAMP_SECONDS) current_ts in
        do (if decide (error_messsage ≠ EmptyString)
            then create_task_error (ts_id task) error_messsage current_ts
            else ret tt) in
        ret true
  end.

(** [requeue]: after the two guards the body ends ([# TODO]), so the method
    returns [None]. *)
Definition requeue (self : Coordinator) (task_id : string) : M (option bool) :=
  let* task := _get_task_only_status task_id in
  match task with
  | None => ret (Some false)
  | Some task =>
      if task_mod.is_unstarted (ts_status task) then ret (Some true)
      else if negb (task_mod.is_wip (ts_status task)) then ret (Some false)
      else ret None
  end.

Module task_queue.

(** Modelled from the spec: the effect of [retry] on a row: PENDING again,
    visible at [v]. *)
Definition reopen (v : Qc) (t : model.Task) : model.Task :=
  model.mkTask (model.id t) (model.data t) (model.vqueue_name t) (model.priority t)
    model.DEFAULT_STATUS v (model.queued_at t) (model.ended_at t).

(** Modelled from the spec: [TaskQueue.retry] of [vtq/task_queue.py], which
    is not part of the sources.  An unknown id and a task that is not
    FAILED give false; a FAILED task becomes PENDING again, visible at now
    plus the delay, a non-empty message is recorded, and the result is
    true. *)
Definition retry (task_id : string) (delayMillis : Z) (error_message : string) : M bool :=
  let* task := _get_task_only_status task_id in
  match task with
  | None => ret false
  | Some task =>
      if negb (task_mod.is_failed (ts_status task)) then ret false
      else
        let* now := time_time in
        let* d := get_db in
        do put_db (mkDB (vqs d)
                    (update_where (λ t, model.id t = ts_id task)
                       (reopen (now + Z2T delayMillis / Z2T 1000)%Qc) (tasks d)).1
                    (task_errors d)) in
        do (if decide (error_message ≠ EmptyString)
            then create_task_error (ts_id task) error_message now
            else ret tt) in
        ret true
  end.

End task_queue.

(** [retry]: [super().retry(task_id, delayMillis, error_message)] *)
Definition retry (self : Coordinator) (task_id : string) (delayMillis : Z)
    (error_message : string) : M bool :=
  task_queue.retry task_id delayMillis error_message.

(** ** Enqueue *)

Definition FOREIGN_KEY_FAILED : string := "FOREIGN KEY constraint failed".
Definition UNIQUE_FAILED : string := "UNIQUE constraint failed".

(** Modelled from the spec: [self._task_cls.create(...)].  The model assigns
    the identifier, the status PENDING and [queued_at], the creation time;
    the store cannot hold a priority beyond 64 bits ([OverflowError]), and
    it refuses a second row with the same identifier, and a row whose queue
    does not exist. *)
Definition create_task (task_data : list Byte.byte) (vqueue_name : string)
    (priority : Z) (visible_at : Qc) : M model.Task :=
  let* new_id := next_id in
  let* now := time_time in
  let* d := get_db in
  if decide (¬ int64 priority) then raise OverflowError
  else if decide (new_id ∈ model.id <$> tasks d) then raise (IntegrityError UNIQUE_FAILED)
  else if decide (vqueue_name ∈ model.name <$> vqs d) then
    let task := model.mkTask new_id task_data vqueue_name priority
                  model.DEFAULT_STATUS visible_at now None in
    do put_db (mkDB (vqs d) (tasks d ++ [task]) (task_errors d)) in
    ret task
  else raise (IntegrityError FOREIGN_KEY_FAILED).

(** Modelled from the spec: what the store does on
    [self._vq_cls.insert(...).execute()]: it cannot hold an integer beyond
    64 bits ([OverflowError]), [name] is the key of the table, and a new
    queue is not hidden. *)
Definition insert_vq (name : string) (priority : Z) (bucket_name : string)
    (bucket_weight visibility_timeout : Z) : M unit :=
  let* d := get_db in
  if decide (¬ (int64 priority ∧ int64 bucket_weight ∧ int64 visibility_timeout))
  then raise OverflowError
  else if decide (name ∈ model.name <$> vqs d) then raise (IntegrityError UNIQUE_FAILED)
  else put_db (mkDB (vqs d ++ [model.mkVQ name priority bucket_name bucket_weight
                                 visibility_timeout false])
                    (tasks d) (task_errors d)).

(** [with self._db.atomic(): m]: an exception rolls the database back. *)
Definition atomic {A} (m : M A) : M A :=
  fun w => match m w with
           | (Ok a, w') => (Ok a, w')
           | (Raise e, w') => (Raise e, set_db w' (db w))
           end.

Definition _enqueue_task_with_new_vq (self : Coordinator) (task_data : list Byte.byte)
    (vqueue_name : string) (priority : Z) (visible_at : Qc) : M model.Task :=
  atomic (
    match _config_fetcher self vqueue_name with
    | Raise e => raise e
    | Ok vq_config =>
        do insert_vq vqueue_name (cfg_priority vq_config)
             (bkt_name (cfg_bucket vq_config)) (bkt_weight (cfg_bucket vq_config))
             (cfg_visibility_timeout_seconds vq_config) in
        create_task task_data vqueue_name priority visible_at
    end).

(** [enqueue]: [visible_at] is
    [time.time() + delay_millis / 1000.0 if delay_millis else 0]: the clock
    is read first, then [delay_millis] is converted to a float, which
    raises [OverflowError] when it is too large, divided and added. *)
Definition enqueue (self : Coordinator) (task_data : list Byte.byte) (vqueue_name : string)
    (priority : Z) (delay_millis : Z) : M string :=
  let* visible_at :=
    (if decide (delay_millis ≠ 0)
     then let* now := time_time in
          match float.of_int delay_millis with
          | None => raise OverflowError
          | Some d => ret (float.add now (float.div d (Z2T 1000)))
          end
     else ret (Z2T 0)) in
  let* task :=
    atomic (try_except (create_task task_data vqueue_name priority visible_at)
      (λ e, match e with
            | IntegrityError msg =>
                if decide (msg ≠ FOREIGN_KEY_FAILED) then raise e
                else _enqueue_task_with_new_vq self task_data vqueue_name priority visible_at
            | _ => raise e
            end)) in
  do channel_send (model.id task) in
  ret (model.id task).

(** ** Runs of [receive] *)

(** [each_read P self w l]: the tasks of [l] are what successive calls of
    [_read] return from [w] on, and [P] holds of each of them in the world
    in which it was read. *)
Fixpoint each_read (P : World -> Task -> Prop) (self : Coordinator) (w : World)
    (l : list Task) : Prop :=
  match l with
  | [] => True
  | t :: l' =>
      (_read self w).1 = Ok (Some t) ∧ P w t ∧ each_read P self (_read self w).2 l'
  end.

(** The world after [n] calls of [_read]. *)
Fixpoint after_reads (self : Coordinator) (w : World) (n : nat) : World :=
  match n with
  | O => w
  | S n' => after_reads self (_read self w).2 n'
  end.

(** The ways the loop of [receive] ends, from the list [acc] gathered so
    far and the world [w]. *)
Inductive receive_run (self : Coordinator) (max_number wait_time_seconds : Z) :
    list Task -> World -> result (list Task) * World -> Prop :=
| run_full acc w :
    max_number ≤ Z.of_nat (length acc) →
    receive_run self max_number wait_time_seconds acc w (Ok acc, w)
| run_no_task acc w :
    Z.of_nat (length acc) < max_number →
    (_read self w).1 = Ok None →
    acc ≠ [] ∨ wait_time_seconds ≤ 0 →
    receive_run self max_number wait_time_seconds acc w (Ok acc, (_read self w).2)
| run_wait acc w :
    Z.of_nat (length acc) < max_number →
    (_read self w).1 = Ok None →
    acc = [] → 0 < wait_time_seconds →
    receive_run self max_number wait_time_seconds acc w
      (Raise NotImplementedError, (_read self w).2)
| run_task acc w t r :
    Z.of_nat (length acc) < max_number →
    (_read self w).1 = Ok (Some t) →
    receive_run self max_number wait_time_seconds (acc ++ [t]) (_read self w).2 r →
    receive_run self max_number wait_time_seconds acc w r.

(** Iterations the loop of [receive] still has to make. *)
Definition need (max_number : Z) (acc : list Task) : nat :=
  Z.to_nat (max_number - Z.of_nat (length acc)).

(** ** Properties of a returned task *)

(** [r] is a task row joined to its queue, the queue is not hidden and the
    task is due at the current time of [w]. *)
Definition due_in (w : World) (r : Row) : Prop :=
  r.1 ∈ tasks (db w) ∧ r.2 ∈ vqs (db w)
  ∧ model.vqueue_name r.1 = model.name r.2
  ∧ model.hidden r.2 = false
  ∧ (model.visible_at r.1 ≤ now w)%Qc.

(** [r] is due and no due row has a queue of greater priority. *)
Definition in_top_layer (w : World) (r : Row) : Prop :=
  due_in w r ∧ ∀ c : Row, due_in w c → model.vq_priority c.2 ≤ model.vq_priority r.2.

(** [t] was built from the row [r]. *)
Definition row_of (t : Task) (r : Row) : Prop :=
  model.id r.1 = task_id t ∧ model.data r.1 = task_data t.

(** Strict layering: [t] comes from a row of the top layer, so no due
    PENDING task sits in a queue of greater priority. *)
Definition top_priority_layer (w : World) (t : Task) : Prop :=
  ∃ r : Row, row_of t r ∧ in_top_layer w r
    ∧ ∀ (c : Row) (p : Z), due_in w c → model.status c.1 < 10 →
        model.vq_priority c.2 = p → ¬ model.vq_priority r.2 < p.

(** The pick inside the layer: among the rows of the top layer in the bucket
    of [t]'s queue, [t] has the greatest priority and, among those of that
    priority, the earliest [queued_at]. *)
Definition in_layer_pick (w : World) (t : Task) : Prop :=
  ∃ r : Row, row_of t r ∧ in_top_layer w r
    ∧ ∀ c : Row, in_top_layer w c →
        model.bucket_name c.2 = model.bucket_name r.2 →
        model.priority c.1 ≤ model.priority r.1
        ∧ (model.priority c.1 = model.priority r.1 →
           (model.queued_at r.1 ≤ model.queued_at c.1)%Qc).

(** The status of the task with identifier [task_id], if there is one. *)
Definition status_of (w : World) (task_id : string) : option Z :=
  model.status <$> first (filter (λ t, model.id t = task_id) (tasks (db w))).

(** The identifiers in the task table. *)
Definition task_ids (w : World) : list string := model.id <$> tasks (db w).

(** What [enqueue] computes for [visible_at] when called in [w]; [None]
    when the delay is too large for a float. *)
Definition enqueue_visible_at (delay_millis : Z) (w : World) : option Qc :=
  if decide (delay_millis = 0) then Some (Z2T 0)
  else (λ d, float.add (now w) (float.div d (Z2T 1000))) <$> float.of_int delay_millis.

(** The world after the model took an identifier and read the time. *)
Definition after_create (w : World) : World :=
  mkWorld (db w) (clock w) (S (ticks w)) (id_supply w) (S (created w)) (channel w).

(** No row with identifier [i] is due before [v], and the clock stays below
    [v] from now on. *)
Definition not_due_before (i : string) (v : Qc) (w : World) : Prop :=
  (∀ row, row ∈ tasks (db w) → model.id row = i → (v ≤ model.visible_at row)%Qc)
  ∧ ∀ k, (ticks w ≤ k)%nat → (clock w k < v)%Qc.

(** ** Worlds used in the examples *)

Module Examples.

Definition self : Coordinator :=
  mkCoordinator (λ _, Ok (mkVQConfig 0 (mkBucket "default" 1) 30)).

(** Identifiers "a", "b", "c", ... *)
Definition ids (n : nat) : string :=
  String (Ascii.ascii_of_nat (97 + n)) EmptyString.

Definition world (d : Database) (clk : nat → Qc) : World :=
  mkWorld d clk 0 ids 0 [].

Definition vq (name : string) (priority timeout : Z) (hidden : bool) : model.VirtualQueue :=
  model.mkVQ name priority "default" 1 timeout hidden.

Definition row (id vqueue_name : string) (priority status visible_at queued_at : Z)
  : model.Task :=
  model.mkTask id [] vqueue_name priority status (Z2T visible_at) (Z2T queued_at) None.

(** Two queues of priority 10 and 5, all tasks PENDING and due. *)
Definition w_layers : World :=
  world (mkDB [vq "hi" 10 30 false; vq "lo" 5 30 false]
              [row "t1" "lo" 9 0 0 1; row "t2" "hi" 1 0 0 2;
               row "t3" "hi" 3 0 0 5; row "t4" "hi" 3 0 0 4] [])
        (λ n, Z2T (100 + Z.of_nat n)).

(** A task leased until time 5, read at time 10. *)
Definition w_expired : World :=
  world (mkDB [vq "q" 1 30 false] [row "t1" "q" 50 50 5 1] []) (λ _, Z2T 10).

(** A PENDING task in a queue with a visibility timeout of one second; the
    clock reads 100, 102, 104, ... *)
Definition w_pending : World :=
  world (mkDB [vq "q" 1 1 false] [row "t1" "q" 50 0 0 1] [])
        (λ n, Z2T (100 + 2 * Z.of_nat n)).

(** A queue without tasks; every reading of the clock is 1000. *)
Definition w_queue : World :=
  world (mkDB [vq "q" 1 30 false] [] []) (λ _, Z2T 1000).

Definition w_empty : World := world (mkDB [] [] []) (λ _, Z2T 1000).

(** A LEASED task, a SUCCEEDED one, a FAILED one and a PENDING one. *)
Definition w_states : World :=
  world (mkDB [vq "q" 1 30 false]
              [row "leased" "q" 50 50 130 1; row "done" "q" 50 100 2147483647 2;
               row "failed" "q" 50 101 2147483647 3; row "pending" "q" 50 0 0 4] [])
        (λ _, Z2T 100).

End Examples.

(** ** Further notions *)

(** The columns of a task row that [_read] never writes. *)
Definition fixed_columns (t : model.Task)
  : string * list Byte.byte * string * Z * Qc * option Qc :=
  (model.id t, model.data t, model.vqueue_name t, model.priority t,
   model.queued_at t, model.ended_at t).

(** What [receive] leaves as it is: the queues, the error log, the channel,
    the identifiers still to come, the clock, and every column of the task
    table but [status] and [visible_at]. *)
Definition same_but_leases (w w' : World) : Prop :=
  vqs (db w') = vqs (db w)
  ∧ task_errors (db w') = task_errors (db w)
  ∧ channel w' = channel w
  ∧ clock w' = clock w
  ∧ id_supply w' = id_supply w
  ∧ created w' = created w
  ∧ fixed_columns <$> tasks (db w') = fixed_columns <$> tasks (db w).

(** Every queue that a row with identifier [i] could be joined to is
    hidden. *)
Definition suppressed (i : string) (w : World) : Prop :=
  ∀ row q, row ∈ tasks (db w) → model.id row = i →
           q ∈ vqs (db w) → model.vqueue_name row = model.name q →
           model.hidden q = true.

(** The queue row [_enqueue_task_with_new_vq] inserts for [vqueue_name]
    from the policy [vq_config]. *)
Definition new_vq (vqueue_name : string) (vq_config : VQConfig) : model.VirtualQueue :=
  model.mkVQ vqueue_name
    (cfg_priority vq_config)
    (bkt_name (cfg_bucket vq_config))
    (bkt_weight (cfg_bucket vq_config))
    (cfg_visibility_timeout_seconds vq_config)
    false.

(** The integers of a policy fit the columns of the queue table. *)
Definition config_fits (vq_config : VQConfig) : Prop :=
  int64 (cfg_priority vq_config) ∧ int64 (bkt_weight (cfg_bucket vq_config))
  ∧ int64 (cfg_visibility_timeout_seconds vq_config).

(** The keys of the two tables are unique: no two task rows share an
    identifier and no two queue rows share a name. *)
Definition keys_unique (w : World) : Prop :=
  NoDup (task_ids w) ∧ NoDup (model.name <$> vqs (db w)).

(** ** More worlds for the examples *)

Module MoreExamples.

(** A hidden queue of priority 10 and a visible one of priority 1, each
    with a due PENDING task. *)
Definition w_hidden : World :=
  Examples.world
    (mkDB [Examples.vq "hid" 10 30 true; Examples.vq "q" 1 30 false]
          [Examples.row "h1" "hid" 9 0 0 1; Examples.row "t1" "q" 1 0 0 2] [])
    (λ n, Z2T (100 + Z.of_nat n)).

(** The next identifier but one, "b", is taken, and the queue "new" is not
    known. *)
Definition w_taken : World :=
  Examples.world
    (mkDB [Examples.vq "q" 1 30 false] [Examples.row "b" "q" 50 0 0 1] [])
    (λ _, Z2T 1000).

(** The only task is PENDING and becomes due at time 5000; every reading of
    the clock is 1000. *)
Definition w_not_due : World :=
  Examples.world
    (mkDB [Examples.vq "q" 1 30 false] [Examples.row "t1" "q" 50 0 5000 1] [])
    (λ _, Z2T 1000).

End MoreExamples.

(** * Properties *)

(** ** The order of the pick *)

Lemma order_le_refl (a : Row) : order_le a a.
Proof. right. split; [done | apply Qcle_refl]. Qed.

Lemma order_le_total (a b : Row) : order_le a b ∨ order_le b a.
Proof.
  unfold order_le.
  destruct (Z.lt_trichotomy (model.priority a.1) (model.priority b.1)) as [?|[E|?]]; auto.
  destruct (Qclt_le_dec (model.queued_at b.1) (model.queued_at a.1)) as [Hlt|Hle].
  - right. right. split; [done | by apply Qclt_le_weak].
  - left. right. done.
Qed.

Lemma order_le_trans (a b c : Row) : order_le a b → order_le b c → order_le a c.
Proof.
  unfold order_le. intros [H1|[E1 Q1]] [H2|[E2 Q2]].
  - left. lia.
  - left. lia.
  - left. lia.
  - right. split; [lia | by eapply Qcle_trans].
Qed.

Lemma elem_of_order_insert (x y : Row) (l : list Row) :
  y ∈ order_insert x l ↔ y = x ∨ y ∈ l.
Proof.
  induction l as [|z l IH]; simpl.
  - rewrite list_elem_of_singleton, elem_of_nil. tauto.
  - case_decide; rewrite !elem_of_cons; [tauto | rewrite IH; tauto].
Qed.

Lemma elem_of_order_by (y : Row) (l : list Row) : y ∈ order_by l ↔ y ∈ l.
Proof.
  induction l as [|x l IH]; simpl; [done |].
  rewrite elem_of_order_insert, elem_of_cons, IH. done.
Qed.

(** The head of the sorted rows is a row of the list that no row of the list
    precedes. *)
Lemma first_order_by (l : list Row) (r : Row) :
  first (order_by l) = Some r → r ∈ l ∧ ∀ c, c ∈ l → order_le r c.
Proof.
  unfold first. revert r. induction l as [|x l IH]; intros r; simpl; [done |].
  destruct (order_by l) as [|y s] eqn:E; simpl.
  - intros [= <-]. split; [left |].
    intros c [->|Hc]%elem_of_cons; [apply order_le_refl |].
    apply elem_of_order_by in Hc. rewrite E in Hc. by apply elem_of_nil in Hc.
  - destruct (IH y eq_refl) as [Hy Hmin].
    case_decide as Hxy; simpl; intros [= <-].
    + split; [left |].
      intros c [->|Hc]%elem_of_cons; [apply order_le_refl |].
      eapply order_le_trans; [exact Hxy | by apply Hmin].
    + split; [by right |].
      intros c [->|Hc]%elem_of_cons; [| by apply Hmin].
      destruct (order_le_total y x); done.
Qed.

Lemma first_order_by_None (l : list Row) : first (order_by l) = None ↔ l = [].
Proof.
  unfold first. split; [| by intros ->].
  destruct l as [|x l]; [done |]. simpl. intros H.
  assert (x ∈ order_insert x (order_by l)) as Hx by (apply elem_of_order_insert; auto).
  destruct (order_insert x (order_by l)); [by apply elem_of_nil in Hx | done].
Qed.

(** ** The candidate set and the priority layer *)

Lemma elem_of_join (t : model.Task) (q : model.VirtualQueue) ts qs :
  (t, q) ∈ join ts qs ↔ t ∈ ts ∧ q ∈ qs ∧ model.vqueue_name t = model.name q.
Proof.
  unfold join. rewrite list_elem_of_bind. split.
  - intros (t' & Hq & Ht). apply list_elem_of_fmap in Hq as (q' & [= -> ->] & Hq).
    apply list_elem_of_filter in Hq as [? ?]. done.
  - intros (Ht & Hq & E). exists t. split; [| done].
    apply list_elem_of_fmap. exists q. split; [done |].
    apply list_elem_of_filter. done.
Qed.

Lemma elem_of_available_task_query (current_ts : Qc) (d : Database) (r : Row) :
  r ∈ available_task_query current_ts d ↔
    r.1 ∈ tasks d ∧ r.2 ∈ vqs d ∧ model.vqueue_name r.1 = model.name r.2
    ∧ model.hidden r.2 = false ∧ (model.visible_at r.1 ≤ current_ts)%Qc.
Proof.
  unfold available_task_query, available. destruct r as [t q].
  rewrite list_elem_of_filter, elem_of_join. simpl. tauto.
Qed.

Lemma sql_max_Some (l : list Z) (m : Z) :
  sql_max l = Some m → m ∈ l ∧ ∀ x, x ∈ l → x ≤ m.
Proof.
  revert m. induction l as [|a l IH]; intros m; simpl; [done |].
  destruct (sql_max l) as [m'|] eqn:E; simpl; intros [= <-].
  - destruct (IH m' eq_refl) as [Hin Hmax]. split.
    + destruct (Z.max_spec a m') as [[_ ->]|[_ ->]]; [by right | left].
    + intros x [->|Hx]%elem_of_cons; [lia |]. specialize (Hmax x Hx). lia.
  - split; [left |]. intros x [->|Hx]%elem_of_cons; [lia |].
    destruct l; [by apply elem_of_nil in Hx | done].
Qed.

Lemma sql_max_None (l : list Z) : sql_max l = None ↔ l = [].
Proof. split; [| by intros ->]. by destruct l. Qed.

(** The rows of the priority layer are the available rows whose queue has
    the greatest priority of all available rows. *)
Lemma elem_of_priority_layer_query (current_ts : Qc) (d : Database) (r : Row) :
  r ∈ priority_layer_query current_ts d ↔
    r ∈ available_task_query current_ts d
    ∧ ∀ c : Row, c ∈ available_task_query current_ts d →
        model.vq_priority c.2 ≤ model.vq_priority r.2.
Proof.
  unfold priority_layer_query, max_vq_priority.
  rewrite list_elem_of_filter. split.
  - intros [E Hr]. split; [done |]. intros c Hc.
    symmetry in E. apply sql_max_Some in E as [_ Hmax].
    apply Hmax. apply list_elem_of_fmap. by exists c.
  - intros [Hr Hmax]. split; [| done].
    destruct (sql_max _) as [m|] eqn:E.
    + apply sql_max_Some in E as [Hin Hm]. f_equal.
      apply list_elem_of_fmap in Hin as (c & -> & Hc).
      specialize (Hmax c Hc).
      assert (model.vq_priority r.2 ≤ model.vq_priority c.2); [| lia].
      apply Hm. apply list_elem_of_fmap. by exists r.
    + apply sql_max_None, fmap_nil_inv in E. rewrite E in Hr.
      by apply elem_of_nil in Hr.
Qed.

Lemma priority_layer_query_nil (current_ts : Qc) (d : Database) :
  priority_layer_query current_ts d = [] ↔ available_task_query current_ts d = [].
Proof.
  split.
  - intros E. destruct (max_vq_priority current_ts d) as [m|] eqn:Em.
    + unfold max_vq_priority in Em. apply sql_max_Some in Em as [Hin Hm].
      apply list_elem_of_fmap in Hin as (c & -> & Hc).
      assert (c ∈ priority_layer_query current_ts d) as Hl.
      { apply elem_of_priority_layer_query. split; [done |].
        intros c' Hc'. apply Hm, list_elem_of_fmap. by exists c'. }
      rewrite E in Hl. by apply elem_of_nil in Hl.
    + unfold max_vq_priority in Em. by apply sql_max_None, fmap_nil_inv in Em.
  - intros E. unfold priority_layer_query. by rewrite E.
Qed.

Lemma select_task_Some (current_ts : Qc) (d : Database) (task : Candidate) :
  select_task current_ts d = Some task →
  ∃ r : Row, task = select_columns r
    ∧ r ∈ priority_layer_query current_ts d
    ∧ ∀ c, c ∈ priority_layer_query current_ts d → order_le r c.
Proof.
  unfold select_task. intros H.
  apply fmap_Some in H as (r & Hr & ->).
  apply first_order_by in Hr as [? ?]. by exists r.
Qed.

Lemma select_task_None (current_ts : Qc) (d : Database) :
  select_task current_ts d = None ↔ available_task_query current_ts d = [].
Proof.
  unfold select_task. rewrite fmap_None, first_order_by_None.
  apply priority_layer_query_nil.
Qed.

(** ** [_read] and the loop of [receive] *)

Lemma _read_eq (self : Coordinator) (w : World) :
  _read self w =
    match select_task (now w) (db w) with
    | None => (Ok None, tick w)
    | Some task =>
        (Ok (Some (mkTask (c_id task) (c_data task))),
         set_db (tick w) (claim (db w) task (now w)).1)
    end.
Proof.
  unfold _read, bind, time_time, get_db. simpl.
  destruct (select_task (now w) (db w)); reflexivity.
Qed.

Lemma _read_never_raises (self : Coordinator) (w : World) :
  ∃ o, (_read self w).1 = Ok o.
Proof. rewrite _read_eq. destruct (select_task _ _); simpl; eauto. Qed.

Lemma _read_clock (self : Coordinator) (w : World) :
  clock (_read self w).2 = clock w ∧ ticks (_read self w).2 = S (ticks w).
Proof. rewrite _read_eq. destruct (select_task _ _); done. Qed.

(** The rows [_read] chose from: what it returns is the first row, in the
    order of the pick, of the priority layer at the time it read. *)
Lemma _read_Some (self : Coordinator) (w : World) (t : Task) :
  (_read self w).1 = Ok (Some t) →
  ∃ r : Row, model.id r.1 = task_id t ∧ model.data r.1 = task_data t
    ∧ r ∈ priority_layer_query (now w) (db w)
    ∧ ∀ c, c ∈ priority_layer_query (now w) (db w) → order_le r c.
Proof.
  rewrite _read_eq. destruct (select_task _ _) as [task|] eqn:E; [| done].
  simpl. intros [= <-]. apply select_task_Some in E as (r & -> & Hr & Hmin).
  exists r. done.
Qed.

Lemma _read_None (self : Coordinator) (w : World) :
  (_read self w).1 = Ok None ↔ available_task_query (now w) (db w) = [].
Proof.
  rewrite _read_eq, <- select_task_None.
  destruct (select_task _ _); simpl; split; congruence.
Qed.

Lemma need_app (max_number : Z) (acc : list Task) (t : Task) :
  Z.of_nat (length acc) < max_number →
  need max_number acc = S (need max_number (acc ++ [t])).
Proof. unfold need. rewrite length_app. simpl. lia. Qed.

(** With enough fuel the loop ends in one of the four ways. *)
Lemma receive_loop_run (self : Coordinator) (max_number wait_time_seconds : Z)
    (fuel : nat) (acc : list Task) (w : World) :
  (need max_number acc ≤ fuel)%nat →
  receive_run self max_number wait_time_seconds acc w
    (receive_loop fuel self max_number wait_time_seconds acc w).
Proof.
  revert acc w. induction fuel as [|fuel IH]; intros acc w Hfuel; simpl.
  - apply run_full. unfold need in Hfuel. lia.
  - case_decide as Hlt; [| apply run_full; lia].
    unfold bind. destruct (_read_never_raises self w) as [o Ho].
    destruct (_read self w) as [r w1] eqn:E. simpl in Ho. subst r.
    destruct o as [t|].
    + eapply run_task; [done | by rewrite E | rewrite E; simpl].
      apply IH. rewrite (need_app max_number acc t) in Hfuel by done. lia.
    + case_decide as Hc.
      * replace w1 with (_read self w).2 by (by rewrite E).
        apply run_no_task; [done | by rewrite E | done].
      * replace w1 with (_read self w).2 by (by rewrite E).
        apply run_wait; [done | by rewrite E | |].
        -- destruct acc; [done | exfalso; apply Hc; by left].
        -- lia.
Qed.

(** The loop ends in one way only. *)
Lemma receive_run_det (self : Coordinator) (max_number wait_time_seconds : Z) acc w r1 r2 :
  receive_run self max_number wait_time_seconds acc w r1 →
  receive_run self max_number wait_time_seconds acc w r2 →
  r1 = r2.
Proof.
  intros H1. revert r2.
  induction H1 as [acc w Hge|acc w Hlt Hr Hc|acc w Hlt Hr Hn Hw
                  |acc w t r Hlt Hr Hrun IH];
    intros r2 H2; inversion H2; subst; try done; try lia; try congruence.
  - destruct Hc; [done | lia].
  - match goal with H : _ ∨ _ |- _ => destruct H; [done | lia] end.
  - apply IH. congruence.
Qed.

(** More fuel than the loop needs changes nothing. *)
Lemma receive_loop_fuel (self : Coordinator) (max_number wait_time_seconds : Z)
    (fuel : nat) (acc : list Task) (w : World) :
  (need max_number acc ≤ fuel)%nat →
  receive_loop fuel self max_number wait_time_seconds acc w
  = receive_loop (need max_number acc) self max_number wait_time_seconds acc w.
Proof.
  intros Hfuel.
  eapply receive_run_det; apply receive_loop_run; [done | lia].
Qed.

Lemma receive_run_length (self : Coordinator) (max_number wait_time_seconds : Z) acc w l w' :
  receive_run self max_number wait_time_seconds acc w (Ok l, w') →
  Z.of_nat (length l) ≤ Z.max max_number (Z.of_nat (length acc)).
Proof.
  intros H. remember (Ok l, w') as r eqn:Er. revert l w' Er.
  induction H as [acc w|acc w|acc w|acc w t r Hlt Hr Hrun IH]; intros l w' Er.
  - injection Er as <- <-. lia.
  - injection Er as <- <-. lia.
  - done.
  - specialize (IH l w' Er). rewrite length_app in IH. simpl in IH. lia.
Qed.

(** The list returned extends [acc] by what the successive reads gave. *)
Lemma receive_run_reads (self : Coordinator) (max_number wait_time_seconds : Z)
    (P : World → Task → Prop) acc w l w' :
  (∀ w t, (_read self w).1 = Ok (Some t) → P w t) →
  receive_run self max_number wait_time_seconds acc w (Ok l, w') →
  ∃ l', l = acc ++ l' ∧ each_read P self w l'.
Proof.
  intros HP H. remember (Ok l, w') as r eqn:Er. revert l w' Er.
  induction H as [acc w|acc w|acc w|acc w t r Hlt Hr Hrun IH]; intros l w' Er.
  - injection Er as <- <-. exists []. by rewrite app_nil_r.
  - injection Er as <- <-. exists []. by rewrite app_nil_r.
  - done.
  - destruct (IH l w' Er) as (l' & -> & Hl').
    exists (t :: l'). rewrite <- app_assoc. split; [done |].
    simpl. auto.
Qed.

(** Where the run stops: the list is full, or the read after the last task
    found no row. *)
Lemma receive_run_end (self : Coordinator) (max_number wait_time_seconds : Z) acc w l w' :
  receive_run self max_number wait_time_seconds acc w (Ok l, w') →
  ∃ n : nat,
    (length l = length acc + n)%nat
    ∧ ((max_number ≤ Z.of_nat (length l) ∧ w' = after_reads self w n)
       ∨ (Z.of_nat (length l) < max_number
          ∧ (_read self (after_reads self w n)).1 = Ok None
          ∧ w' = (_read self (after_reads self w n)).2)).
Proof.
  intros H. remember (Ok l, w') as r eqn:Er. revert l w' Er.
  induction H as [acc w|acc w|acc w|acc w t r Hlt Hr Hrun IH]; intros l w' Er.
  - injection Er as <- <-. exists 0%nat. split; [lia |]. left. done.
  - injection Er as <- <-. exists 0%nat. split; [lia |]. right. done.
  - done.
  - destruct (IH l w' Er) as (n & Hlen & Hend).
    exists (S n). rewrite length_app in Hlen. simpl in *. split; [lia | done].
Qed.

Lemma receive_run_no_wait (self : Coordinator) (max_number wait_time_seconds : Z) acc w r :
  receive_run self max_number wait_time_seconds acc w r →
  acc ≠ [] ∨ wait_time_seconds ≤ 0 →
  ∃ l, r.1 = Ok l.
Proof.
  induction 1 as [acc w|acc w|acc w|acc w t r Hlt Hr Hrun IH]; intros Hc.
  - by exists acc.
  - by exists acc.
  - destruct Hc; [done | lia].
  - apply IH. left. by destruct acc.
Qed.

(** From the empty list: with no wait, or when the first read finds a row,
    the loop returns a list. *)
Lemma receive_run_returns (self : Coordinator) (max_number wait_time_seconds : Z) w r :
  receive_run self max_number wait_time_seconds [] w r →
  wait_time_seconds ≤ 0 ∨ available_task_query (now w) (db w) ≠ [] →
  ∃ l, r.1 = Ok l.
Proof.
  intros Hrun [Hw|Hav]; [eapply receive_run_no_wait; eauto |].
  inversion Hrun as [| |acc' w' Hlt Hnone|acc' w' t r' Hlt Hsome Hrest]; subst.
  - by exists [].
  - by exists [].
  - by apply _read_None in Hnone.
  - eapply receive_run_no_wait; [exact Hrest | by left].
Qed.

Lemma receive_run_receive (self : Coordinator) (max_number wait_time_seconds : Z) (w : World) :
  receive_run self max_number wait_time_seconds [] w
    (receive self max_number wait_time_seconds w).
Proof. apply receive_loop_run. unfold need. simpl. lia. Qed.

(** ** Priority layering and the order of the pick *)

Lemma due_in_available (w : World) (r : Row) :
  due_in w r ↔ r ∈ available_task_query (now w) (db w).
Proof. unfold due_in. by rewrite elem_of_available_task_query. Qed.

Lemma in_top_layer_query (w : World) (r : Row) :
  in_top_layer w r ↔ r ∈ priority_layer_query (now w) (db w).
Proof.
  unfold in_top_layer. rewrite elem_of_priority_layer_query, due_in_available.
  split; intros [Hr Hmax]; (split; [done |]); intros c Hc; apply Hmax;
    by apply due_in_available.
Qed.

Lemma _read_top_priority_layer (self : Coordinator) (w : World) (t : Task) :
  (_read self w).1 = Ok (Some t) → top_priority_layer w t.
Proof.
  intros H. apply _read_Some in H as (r & Hid & Hdata & Hr & Hmin).
  apply in_top_layer_query in Hr. exists r. split; [done |]. split; [done |].
  intros c p Hc _ <-. destruct Hr as [_ Hmax]. specialize (Hmax c Hc). lia.
Qed.

Lemma _read_in_layer_pick (self : Coordinator) (w : World) (t : Task) :
  (_read self w).1 = Ok (Some t) → in_layer_pick w t.
Proof.
  intros H. apply _read_Some in H as (r & Hid & Hdata & Hr & Hmin).
  exists r. split; [done |]. split; [by apply in_top_layer_query |].
  intros c Hc%in_top_layer_query _.
  destruct (Hmin c Hc) as [Hlt|[Heq Hq]].
  - split; [lia | intros E; lia].
  - split; [lia | done].
Qed.

(** C2. Strict priority layering: every task [receive] returns was read from
    the top priority layer: its row is due in a queue that is not hidden,
    the priority of that queue is the greatest over all such queues with a
    due task, and no due PENDING task belongs to a queue of greater
    priority. *)
Theorem C2_strict_priority_layering (self : Coordinator) (max_number wait_time_seconds : Z)
    (w : World) (l : list Task) :
  (receive self max_number wait_time_seconds w).1 = Ok l →
  each_read top_priority_layer self w l.
Proof.
  intros H. pose proof (receive_run_receive self max_number wait_time_seconds w) as Hrun.
  destruct (receive self max_number wait_time_seconds w) as [r w']. simpl in H. subst r.
  destruct (receive_run_reads self max_number wait_time_seconds top_priority_layer
              [] w l w' (_read_top_priority_layer self) Hrun) as (l' & -> & Hl').
  done.
Qed.

Lemma C2_witness :
  (receive Examples.self 2 0 Examples.w_layers).1
    = Ok [mkTask "t4" []; mkTask "t3" []]
  ∧ each_read top_priority_layer Examples.self Examples.w_layers
      [mkTask "t4" []; mkTask "t3" []].
Proof.
  split; [vm_compute; reflexivity |].
  apply (C2_strict_priority_layering Examples.self 2 0). vm_compute. reflexivity.
Defined.

(** C6. The pick inside the layer: every task [receive] returns has, among
    the rows of the top priority layer that share its bucket, the greatest
    task priority, and among those of equal priority the earliest
    [queued_at]. *)
Theorem C6_in_layer_pick_order (self : Coordinator) (max_number wait_time_seconds : Z)
    (w : World) (l : list Task) :
  (receive self max_number wait_time_seconds w).1 = Ok l →
  each_read in_layer_pick self w l.
Proof.
  intros H. pose proof (receive_run_receive self max_number wait_time_seconds w) as Hrun.
  destruct (receive self max_number wait_time_seconds w) as [r w']. simpl in H. subst r.
  destruct (receive_run_reads self max_number wait_time_seconds in_layer_pick
              [] w l w' (_read_in_layer_pick self) Hrun) as (l' & -> & Hl').
  done.
Qed.

Lemma C6_witness :
  (receive Examples.self 3 0 Examples.w_layers).1
    = Ok [mkTask "t4" []; mkTask "t3" []; mkTask "t2" []]
  ∧ each_read in_layer_pick Examples.self Examples.w_layers
      [mkTask "t4" []; mkTask "t3" []; mkTask "t2" []].
Proof.
  split; [vm_compute; reflexivity |].
  apply (C6_in_layer_pick_order Examples.self 3 0). vm_compute. reflexivity.
Defined.

(** ** The guards of [ack], [nack], [requeue] and [retry] *)

Lemma _get_task_only_status_eq (task_id : string) (w : World) :
  _get_task_only_status task_id w = (Ok (mkTaskStatus task_id <$> status_of w task_id), w).
Proof.
  unfold _get_task_only_status, status_of, bind, get_db, ret. simpl. do 2 f_equal.
  destruct (first _) as [t|] eqn:E; [| done]. simpl.
  apply head_Some_elem_of, list_elem_of_filter in E as [<- _]. done.
Qed.

Ltac guard_step :=
  unfold ack, nack, requeue, retry, task_queue.retry, bind;
  rewrite _get_task_only_status_eq;
  unfold task_mod.is_succeeded, task_mod.is_failed, task_mod.is_wip,
    task_mod.is_unstarted.

Lemma ack_not_found self i w : status_of w i = None → ack self i w = (Ok false, w).
Proof. intros E. guard_step. by rewrite E. Qed.

Lemma nack_not_found self i msg w : status_of w i = None → nack self i msg w = (Ok false, w).
Proof. intros E. guard_step. by rewrite E. Qed.

Lemma requeue_not_found self i w :
  status_of w i = None → requeue self i w = (Ok (Some false), w).
Proof. intros E. guard_step. by rewrite E. Qed.

Lemma retry_not_found self i delay msg w :
  status_of w i = None → retry self i delay msg w = (Ok false, w).
Proof. intros E. guard_step. by rewrite E. Qed.

Lemma ack_succeeded self i w : status_of w i = Some 100 → ack self i w = (Ok true, w).
Proof. intros E. guard_step. by rewrite E. Qed.

Lemma nack_failed self i msg w : status_of w i = Some 101 → nack self i msg w = (Ok true, w).
Proof. intros E. guard_step. by rewrite E. Qed.

Lemma ack_invalid self i w s :
  status_of w i = Some s → s ≠ 100 → s ≠ 50 → ack self i w = (Ok false, w).
Proof.
  intros E H1 H2. guard_step. rewrite E. simpl.
  destruct (Z.eqb_spec s 100); [done |]. destruct (Z.eqb_spec s 50); done.
Qed.

Lemma nack_invalid self i msg w s :
  status_of w i = Some s → s ≠ 101 → s ≠ 50 → nack self i msg w = (Ok false, w).
Proof.
  intros E H1 H2. guard_step. rewrite E. simpl.
  destruct (Z.eqb_spec s 101); [done |]. destruct (Z.eqb_spec s 50); done.
Qed.

Lemma requeue_unstarted self i w s :
  status_of w i = Some s → s < 10 → requeue self i w = (Ok (Some true), w).
Proof.
  intros E H1. guard_step. rewrite E. simpl.
  destruct (Z.ltb_spec s 10); [done | lia].
Qed.

Lemma requeue_invalid self i w s :
  status_of w i = Some s → 10 ≤ s → s ≠ 50 → requeue self i w = (Ok (Some false), w).
Proof.
  intros E H1 H2. guard_step. rewrite E. simpl.
  destruct (Z.ltb_spec s 10); [lia |]. destruct (Z.eqb_spec s 50); done.
Qed.

(** On a LEASED task [requeue] falls off the end of its body. *)
Lemma requeue_wip self i w : status_of w i = Some 50 → requeue self i w = (Ok None, w).
Proof. intros E. guard_step. by rewrite E. Qed.

Lemma retry_invalid self i delay msg w s :
  status_of w i = Some s → s ≠ 101 → retry self i delay msg w = (Ok false, w).
Proof.
  intros E H1. guard_step. rewrite E. simpl.
  destruct (Z.eqb_spec s 101); done.
Qed.

(** None of the four raises, whatever the identifier and the store. *)
Lemma ack_never_raises self i w : ∃ b, (ack self i w).1 = Ok b.
Proof.
  guard_step. destruct (status_of w i) as [s|]; simpl; [| eauto].
  destruct (s =? 100); [eauto |]. destruct (s =? 50); simpl; eauto.
Qed.

Lemma nack_never_raises self i msg w : ∃ b, (nack self i msg w).1 = Ok b.
Proof.
  guard_step. destruct (status_of w i) as [s|]; simpl; [| eauto].
  destruct (s =? 101); [eauto |]. destruct (s =? 50); simpl; [| eauto].
  case_decide; simpl; eauto.
Qed.

Lemma requeue_never_raises self i w : ∃ o, (requeue self i w).1 = Ok o.
Proof.
  guard_step. destruct (status_of w i) as [s|]; simpl; [| eauto].
  destruct (s <? 10); [eauto |]. destruct (s =? 50); simpl; eauto.
Qed.

Lemma retry_never_raises self i delay msg w : ∃ b, (retry self i delay msg w).1 = Ok b.
Proof.
  guard_step. destruct (status_of w i) as [s|]; simpl; [| eauto].
  destruct (s =? 101); simpl; [| eauto]. case_decide; simpl; eauto.
Qed.

(** C4. Error discipline of [ack], [nack], [requeue] and [retry]: none of
    them raises; an unknown identifier gives false; a state that does not
    permit the transition gives false ([ack] on any status but SUCCEEDED and
    LEASED, so on PENDING and FAILED; [nack] on any status but FAILED and
    LEASED, so on PENDING and SUCCEEDED; [requeue] on a terminal status;
    [retry] on any status but FAILED); [ack] on SUCCEEDED and [nack] on
    FAILED give true; and in all these cases the world is left as it was. *)
Theorem C4_error_discipline (self : Coordinator) (w : World) (task_id msg : string)
    (delay : Z) :
  ((∃ b, (ack self task_id w).1 = Ok b)
   ∧ (∃ b, (nack self task_id msg w).1 = Ok b)
   ∧ (∃ o, (requeue self task_id w).1 = Ok o)
   ∧ (∃ b, (retry self task_id delay msg w).1 = Ok b))
  ∧ match status_of w task_id with
    | None =>
        ack self task_id w = (Ok false, w)
        ∧ nack self task_id msg w = (Ok false, w)
        ∧ requeue self task_id w = (Ok (Some false), w)
        ∧ retry self task_id delay msg w = (Ok false, w)
    | Some s =>
        (s ≠ 100 → s ≠ 50 → ack self task_id w = (Ok false, w))
        ∧ (s ≠ 101 → s ≠ 50 → nack self task_id msg w = (Ok false, w))
        ∧ (10 ≤ s → s ≠ 50 → requeue self task_id w = (Ok (Some false), w))
        ∧ (s ≠ 101 → retry self task_id delay msg w = (Ok false, w))
        ∧ (s = 100 → ack self task_id w = (Ok true, w))
        ∧ (s = 101 → nack self task_id msg w = (Ok true, w))
    end.
Proof.
  split.
  - auto using ack_never_raises, nack_never_raises, requeue_never_raises,
      retry_never_raises.
  - destruct (status_of w task_id) as [s|] eqn:E.
    + repeat split.
      * intros. by eapply ack_invalid.
      * intros. by eapply nack_invalid.
      * intros. by eapply requeue_invalid.
      * intros. by eapply retry_invalid.
      * intros ->. by apply ack_succeeded.
      * intros ->. by apply nack_failed.
    + auto using ack_not_found, nack_not_found, requeue_not_found, retry_not_found.
Qed.

Lemma C4_witness :
  let w := Examples.w_states in
  status_of w "pending" = Some 0
  ∧ ack Examples.self "pending" w = (Ok false, w)
  ∧ nack Examples.self "pending" "boom" w = (Ok false, w)
  ∧ retry Examples.self "pending" 0 "boom" w = (Ok false, w).
Proof.
  intros w. split; [reflexivity |].
  pose proof (proj2 (C4_error_discipline Examples.self w "pending" "boom" 0)
              : _ ∧ _ ∧ _ ∧ _ ∧ _ ∧ _) as (Ha & Hn & _ & Hr & _ & _).
  split; [apply Ha; discriminate |].
  split; [apply Hn; discriminate | apply Hr; discriminate].
Defined.

(** [ack] on a PENDING and on a FAILED task, [nack] on a PENDING and on a
    SUCCEEDED one, and the two repeated terminal transitions. *)
Example C4_examples :
  let w := Examples.w_states in
  ack Examples.self "pending" w = (Ok false, w)
  ∧ ack Examples.self "failed" w = (Ok false, w)
  ∧ nack Examples.self "pending" "boom" w = (Ok false, w)
  ∧ nack Examples.self "done" "boom" w = (Ok false, w)
  ∧ ack Examples.self "done" w = (Ok true, w)
  ∧ nack Examples.self "failed" "boom" w = (Ok true, w)
  ∧ ack Examples.self "nobody" w = (Ok false, w).
Proof. repeat split. Qed.

(** ** [nack] on a leased task *)

Lemma update_where_id_elem (i : string) (f : model.Task → model.Task)
    (ts : list model.Task) (t' : model.Task) :
  (∀ t, model.id (f t) = model.id t) →
  t' ∈ (update_where (λ t, model.id t = i) f ts).1 → model.id t' = i →
  ∃ t, t ∈ ts ∧ model.id t = i ∧ t' = f t.
Proof.
  intros Hf Hin Hid. unfold update_where in Hin. simpl in Hin.
  apply list_elem_of_fmap in Hin as (t & -> & Ht).
  case_decide as Hd.
  - by exists t.
  - exfalso. by apply Hd.
Qed.

(** C5. [nack] on a LEASED task returns true; the task gets status 101
    (FAILED, which is not the SUCCEEDED code), [visible_at] the sentinel
    [2**31 - 1] and [ended_at] the time read; no other row and no queue
    changes; and the error log grows by the one record of this call when the
    message is not empty, and is unchanged when it is. *)
Theorem C5_nack_leased (self : Coordinator) (w : World) (task_id msg : string) :
  status_of w task_id = Some 50 →
  let w' := (nack self task_id msg w).2 in
  (nack self task_id msg w).1 = Ok true
  ∧ tasks (db w')
    = (λ t, if decide (model.id t = task_id)
            then finish 101 (Z2T _INVISIBLE_TIMESTAMP_SECONDS) (now w) t else t)
        <$> tasks (db w)
  ∧ (∀ t', t' ∈ tasks (db w') → model.id t' = task_id →
       model.status t' = 101
       ∧ task_mod.is_failed (model.status t') = true
       ∧ task_mod.is_succeeded (model.status t') = false
       ∧ model.visible_at t' = Z2T (2 ^ 31 - 1)
       ∧ model.ended_at t' = Some (now w))
  ∧ vqs (db w') = vqs (db w)
  ∧ task_errors (db w')
    = task_errors (db w)
      ++ (if decide (msg ≠ EmptyString) then [model.mkTaskError task_id msg (now w)] else [])
  ∧ (length (task_errors (db w')) = S (length (task_errors (db w))) ↔ msg ≠ EmptyString)
  ∧ (length (task_errors (db w')) = length (task_errors (db w)) ↔ msg = EmptyString).
Proof.
  intros E.
  assert (nack self task_id msg w
          = (Ok true,
             set_db (tick w)
               (mkDB (vqs (db w))
                  (update_where (λ t, model.id t = task_id)
                     (finish 101 (Z2T _INVISIBLE_TIMESTAMP_SECONDS) (now w))
                     (tasks (db w))).1
                  (task_errors (db w)
                   ++ (if decide (msg ≠ EmptyString)
                       then [model.mkTaskError task_id msg (now w)] else [])))))
    as ->.
  { guard_step. rewrite E. simpl.
    unfold time_time, save_finished, bind, get_db, put_db. simpl.
    case_decide; simpl; [done |]. by rewrite app_nil_r. }
  simpl. split_and!; try done.
  - intros t' Hin Hid.
    apply update_where_id_elem in Hin as (t & _ & _ & ->); done.
  - rewrite length_app. case_decide as Hm; simpl; split; try done; lia.
  - rewrite length_app. case_decide as Hm; simpl; split; try done; lia.
Qed.

Lemma C5_witness :
  status_of Examples.w_states "leased" = Some 50
  ∧ (nack Examples.self "leased" "boom" Examples.w_states).1 = Ok true.
Proof.
  split; [reflexivity |].
  apply (C5_nack_leased Examples.self Examples.w_states "leased" "boom").
  reflexivity.
Defined.

(** ** The claiming update *)

(** [_read] returns the chosen candidate, whatever the update matched. *)
Lemma _read_ignores_row_count (self : Coordinator) (w : World) (task : Candidate) :
  select_task (now w) (db w) = Some task →
  _read self w
  = (Ok (Some (mkTask (c_id task) (c_data task))),
     set_db (tick w) (claim (db w) task (now w)).1).
Proof. intros E. by rewrite _read_eq, E. Qed.

(** The update changes no row whose status is 10 or more. *)
Lemma claim_keeps_started (d : Database) (task : Candidate) (current_ts : Qc)
    (t : model.Task) :
  10 ≤ model.status t → t ∈ tasks d → t ∈ tasks (claim d task current_ts).1.
Proof.
  intros Hs Ht. unfold claim, update_where. simpl.
  apply list_elem_of_fmap. exists t. split; [| done].
  rewrite decide_False; [done |]. unfold claim_where. lia.
Qed.

(** When every row of the store has a status of 10 or more, the update
    matches no row and leaves the tasks as they are. *)
Lemma claim_no_pending (d : Database) (task : Candidate) (current_ts : Qc) :
  (∀ t, t ∈ tasks d → 10 ≤ model.status t) →
  claim d task current_ts = (d, 0%nat).
Proof.
  intros Hall. unfold claim, update_where.
  assert (∀ ts, (∀ t, t ∈ ts → 10 ≤ model.status t) →
            ((λ t, if decide (claim_where d task current_ts t)
                   then lease task current_ts t else t) <$> ts) = ts
            ∧ length (filter (claim_where d task current_ts) ts) = 0%nat) as Haux.
  { induction ts as [|t ts IH]; intros Hts; [done |].
    destruct IH as [IH1 IH2]; [intros; apply Hts; by right |].
    assert (¬ claim_where d task current_ts t) as Hn.
    { unfold claim_where. specialize (Hts t (list_elem_of_here _ _)). lia. }
    rewrite fmap_cons, decide_False, IH1 by done.
    rewrite filter_cons_False by done. done. }
  destruct (Haux (tasks d) Hall) as [-> ->]. by destruct d.
Qed.

(** A PENDING row that was chosen is matched by the update. *)
Lemma claim_pending (current_ts : Qc) (d : Database) (r : Row) :
  r ∈ priority_layer_query current_ts d →
  model.status r.1 < 10 →
  (1 ≤ (claim d (select_columns r) current_ts).2)%nat
  ∧ lease (select_columns r) current_ts r.1
      ∈ tasks (claim d (select_columns r) current_ts).1.
Proof.
  intros Hr Hs.
  apply elem_of_priority_layer_query in Hr as [Hr _].
  apply elem_of_available_task_query in Hr as (Ht & Hq & Hn & Hh & Hv).
  assert (claim_where d (select_columns r) current_ts r.1) as Hw.
  { unfold claim_where. split_and!; try done. simpl.
    unfold vq_query.
    assert (r.2 ∈ filter (λ q, model.hidden q = false
                               ∧ model.name q = model.vqueue_name r.1) (vqs d)) as Hin.
    { apply list_elem_of_filter. done. }
    destruct (filter _ (vqs d)) as [|q qs] eqn:E; [by apply elem_of_nil in Hin |].
    assert (q ∈ filter (λ q, model.hidden q = false
                             ∧ model.name q = model.vqueue_name r.1) (vqs d)) as Hq'.
    { rewrite E. left. }
    apply list_elem_of_filter in Hq' as [[_ Hname] _]. simpl. by rewrite Hname. }
  unfold claim, update_where. simpl. split.
  - assert (r.1 ∈ filter (claim_where d (select_columns r) current_ts) (tasks d)) as Hin.
    { apply list_elem_of_filter. done. }
    destruct (filter _ (tasks d)); [by apply elem_of_nil in Hin | simpl; lia].
  - apply list_elem_of_fmap. exists r.1. split; [| done]. by rewrite decide_True.
Qed.

(** C1. A task leased until time 5 sits in a queue that is not hidden; at
    time 10 the selection picks it, the conditional update matches no row
    and the store stays as it was, and [_read] and [receive] return the
    task all the same. *)
Theorem C1_unclaimed_task_returned :
  let w := Examples.w_expired in
  let task := mkCandidate "t1" [] "q" 50 30 in
  select_task (now w) (db w) = Some task
  ∧ claim (db w) task (now w) = (db w, 0%nat)
  ∧ (_read Examples.self w).1 = Ok (Some (mkTask "t1" []))
  ∧ db (_read Examples.self w).2 = db w
  ∧ (receive Examples.self 2 0 w).1 = Ok [mkTask "t1" []; mkTask "t1" []]
  ∧ db (receive Examples.self 2 0 w).2 = db w.
Proof. vm_compute. repeat split. Qed.

(** C3. A PENDING task in a queue with a timeout of one second is leased at
    time 100, until 101.  At time 102 [receive] returns it again, but the
    row is as the first lease left it: LEASED until 101. *)
Theorem C3_expired_lease_not_renewed :
  let w0 := Examples.w_pending in
  let r1 := receive Examples.self 1 0 w0 in
  let r2 := receive Examples.self 1 0 r1.2 in
  now w0 = Z2T 100
  ∧ r1.1 = Ok [mkTask "t1" []]
  ∧ tasks (db r1.2) = [Examples.row "t1" "q" 50 50 101 1]
  ∧ now r1.2 = Z2T 102
  ∧ r2.1 = Ok [mkTask "t1" []]
  ∧ tasks (db r2.2) = [Examples.row "t1" "q" 50 50 101 1].
Proof. vm_compute. repeat split. Qed.

(** ** [receive] when nothing is eligible *)

Lemma receive_nothing_no_wait (self : Coordinator) (max_number wait_time_seconds : Z)
    (w : World) :
  0 < max_number → wait_time_seconds ≤ 0 →
  available_task_query (now w) (db w) = [] →
  receive self max_number wait_time_seconds w = (Ok [], tick w).
Proof.
  intros Hm Hw Ha. eapply receive_run_det; [apply receive_run_receive |].
  assert ((_read self w).2 = tick w) as <-.
  { rewrite _read_eq. apply select_task_None in Ha. by rewrite Ha. }
  apply run_no_task; [simpl; lia | by apply _read_None | by right].
Qed.

Lemma receive_nothing_wait (self : Coordinator) (max_number wait_time_seconds : Z)
    (w : World) :
  0 < max_number → 0 < wait_time_seconds →
  available_task_query (now w) (db w) = [] →
  receive self max_number wait_time_seconds w = (Raise NotImplementedError, tick w).
Proof.
  intros Hm Hw Ha. eapply receive_run_det; [apply receive_run_receive |].
  assert ((_read self w).2 = tick w) as <-.
  { rewrite _read_eq. apply select_task_None in Ha. by rewrite Ha. }
  apply run_wait; [simpl; lia | by apply _read_None | done | done].
Qed.

(** C7. On an empty store [receive] with no wait returns the empty list, and
    [receive] with a wait of one second raises [NotImplementedError]. *)
Theorem C7_positive_wait_raises :
  (receive Examples.self 1 0 Examples.w_empty).1 = Ok []
  ∧ (receive Examples.self 1 1 Examples.w_empty).1 = Raise NotImplementedError.
Proof. split; reflexivity. Qed.

(** C8. [requeue] on a LEASED task returns [None] and leaves the world as it
    was; on a PENDING task it returns true. *)
Theorem C8_requeue_leased_returns_none :
  status_of Examples.w_states "leased" = Some 50
  ∧ requeue Examples.self "leased" Examples.w_states = (Ok None, Examples.w_states)
  ∧ requeue Examples.self "pending" Examples.w_states
    = (Ok (Some true), Examples.w_states).
Proof. repeat split. Qed.

(** ** [enqueue] *)

Lemma create_task_eq data vq prio v (w : World) :
  create_task data vq prio v w =
    let i := id_supply w (created w) in
    let row := model.mkTask i data vq prio model.DEFAULT_STATUS v (now w) None in
    if decide (¬ int64 prio) then (Raise OverflowError, after_create w)
    else if decide (i ∈ task_ids w)
    then (Raise (IntegrityError UNIQUE_FAILED), after_create w)
    else if decide (vq ∈ model.name <$> vqs (db w)) then
      (Ok row, set_db (after_create w)
                 (mkDB (vqs (db w)) (tasks (db w) ++ [row]) (task_errors (db w))))
    else (Raise (IntegrityError FOREIGN_KEY_FAILED), after_create w).
Proof.
  unfold create_task, task_ids, bind, next_id, time_time, get_db, put_db, ret, raise.
  simpl. repeat case_decide; reflexivity.
Qed.

Lemma insert_vq_eq name priority bucket_name bucket_weight visibility_timeout (w : World) :
  insert_vq name priority bucket_name bucket_weight visibility_timeout w =
    if decide (¬ (int64 priority ∧ int64 bucket_weight ∧ int64 visibility_timeout))
    then (Raise OverflowError, w)
    else if decide (name ∈ model.name <$> vqs (db w))
    then (Raise (IntegrityError UNIQUE_FAILED), w)
    else (Ok tt,
          set_db w (mkDB (vqs (db w) ++ [model.mkVQ name priority bucket_name bucket_weight
                                           visibility_timeout false])
                         (tasks (db w)) (task_errors (db w)))).
Proof. unfold insert_vq, bind, get_db, put_db, raise. by repeat case_decide. Qed.

(** The block of [enqueue] that stores the task, case by case: the priority
    does not fit; the first identifier is taken; the queue exists; the
    queue is missing and its policy cannot be fetched, or does not fit, or
    the second identifier is taken; the queue is missing and is created. *)
Lemma enqueue_store_eq (self : Coordinator) data vq prio v (w : World) :
  atomic (try_except (create_task data vq prio v)
      (λ e, match e with
            | IntegrityError msg =>
                if decide (msg ≠ FOREIGN_KEY_FAILED) then raise e
                else _enqueue_task_with_new_vq self data vq prio v
            | _ => raise e
            end)) w =
    let w1 := after_create w in
    let w2 := after_create w1 in
    let row1 := model.mkTask (id_supply w (created w)) data vq prio
                  model.DEFAULT_STATUS v (now w) None in
    let row2 := model.mkTask (id_supply w (S (created w))) data vq prio
                  model.DEFAULT_STATUS v (now w1) None in
    if decide (¬ int64 prio) then (Raise OverflowError, set_db w1 (db w))
    else if decide (id_supply w (created w) ∈ task_ids w) then
      (Raise (IntegrityError UNIQUE_FAILED), set_db w1 (db w))
    else if decide (vq ∈ model.name <$> vqs (db w)) then
      (Ok row1, set_db w1 (mkDB (vqs (db w)) (tasks (db w) ++ [row1]) (task_errors (db w))))
    else match _config_fetcher self vq with
         | Raise e => (Raise e, set_db w1 (db w))
         | Ok vq_config =>
             if decide (¬ config_fits vq_config) then
               (Raise OverflowError, set_db w1 (db w))
             else if decide (id_supply w (S (created w)) ∈ task_ids w) then
               (Raise (IntegrityError UNIQUE_FAILED), set_db w2 (db w))
             else
               (Ok row2, set_db w2 (mkDB (vqs (db w) ++ [new_vq vq vq_config])
                                      (tasks (db w) ++ [row2]) (task_errors (db w))))
         end.
Proof.
  unfold atomic, try_except. rewrite create_task_eq. cbv zeta.
  destruct (decide (¬ int64 prio)) as [Hp|Hp]; [done |].
  destruct (decide (id_supply w (created w) ∈ task_ids w)) as [Hdup|Hfresh].
  { cbv beta iota. by rewrite decide_True. }
  destruct (decide (vq ∈ model.name <$> vqs (db w))) as [Hvq|Hvq]; [done |].
  cbv beta iota. rewrite decide_False by (intros H; by apply H).
  unfold _enqueue_task_with_new_vq, atomic, bind.
  destruct (_config_fetcher self vq) as [vq_config|e]; [| done].
  rewrite insert_vq_eq. unfold config_fits.
  destruct (decide (¬ (int64 (cfg_priority vq_config)
                       ∧ int64 (bkt_weight (cfg_bucket vq_config))
                       ∧ int64 (cfg_visibility_timeout_seconds vq_config))))
    as [Hfit|Hfit]; [done |].
  cbn [db after_create]. rewrite decide_False by done.
  rewrite create_task_eq. cbv zeta.
  change (task_ids (set_db (after_create w) ?d)) with (model.id <$> tasks d).
  cbn [db after_create set_db created id_supply vqs tasks].
  change (model.id <$> tasks (db w)) with (task_ids w).
  rewrite (decide_False (P := ¬ int64 prio)) by done.
  destruct (decide (id_supply w (S (created w)) ∈ task_ids w)) as [Hdup|Hfresh2];
    [done |].
  rewrite decide_True; [| rewrite fmap_app; apply elem_of_app; right; left].
  reflexivity.
Qed.

Lemma enqueue_eq (self : Coordinator) data vq prio delay (w : World) :
  enqueue self data vq prio delay w =
    let w0 := if decide (delay ≠ 0) then tick w else w in
    match enqueue_visible_at delay w with
    | None => (Raise OverflowError, w0)
    | Some v =>
        match atomic (try_except (create_task data vq prio v)
          (λ e, match e with
                | IntegrityError msg =>
                    if decide (msg ≠ FOREIGN_KEY_FAILED) then raise e
                    else _enqueue_task_with_new_vq self data vq prio v
                | _ => raise e
                end)) w0 with
        | (Ok task, w') => (Ok (model.id task), (channel_send (model.id task) w').2)
        | (Raise e, w') => (Raise e, w')
        end
    end.
Proof.
  unfold enqueue, enqueue_visible_at, bind.
  destruct (decide (delay = 0)) as [->|Hd].
  - simpl. destruct (atomic _ w) as [[task|e] w']; reflexivity.
  - rewrite !decide_True by done. unfold time_time. cbv beta iota.
    destruct (float.of_int delay) as [d|]; [| reflexivity].
    simpl. destruct (atomic _ (tick w)) as [[task|e] w']; reflexivity.
Qed.

(** A successful [enqueue], in full. *)
Lemma enqueue_Ok_full (self : Coordinator) data vq prio delay (w : World) (i : string) :
  (enqueue self data vq prio delay w).1 = Ok i →
  let w' := (enqueue self data vq prio delay w).2 in
  (∃ row,
     tasks (db w') = tasks (db w) ++ [row]
     ∧ model.id row = i ∧ (i ∉ task_ids w)
     ∧ model.data row = data ∧ model.vqueue_name row = vq
     ∧ model.priority row = prio ∧ model.status row = model.DEFAULT_STATUS
     ∧ enqueue_visible_at delay w = Some (model.visible_at row))
  ∧ ((vq ∈ model.name <$> vqs (db w)) ∧ vqs (db w') = vqs (db w)
     ∨ (vq ∉ model.name <$> vqs (db w))
       ∧ ∃ vq_config, _config_fetcher self vq = Ok vq_config
           ∧ vqs (db w') = vqs (db w) ++ [new_vq vq vq_config])
  ∧ task_errors (db w') = task_errors (db w)
  ∧ channel w' = channel w ++ [i].
Proof.
  rewrite enqueue_eq. cbv zeta.
  destruct (enqueue_visible_at delay w) as [v|]; [| done].
  rewrite enqueue_store_eq. cbv zeta.
  set (w0 := if decide (delay ≠ 0) then tick w else w).
  assert (db w0 = db w ∧ channel w0 = channel w) as [Hdb Hch].
  { unfold w0. by case_decide. }
  assert (task_ids w0 = task_ids w) as Hids by (unfold task_ids; by rewrite Hdb).
  rewrite Hids, Hdb.
  destruct (decide (¬ int64 prio)); [done |].
  destruct (decide (id_supply w0 (created w0) ∈ task_ids w)); [done |].
  destruct (decide (vq ∈ model.name <$> vqs (db w))) as [Hvq|Hvq].
  - simpl. intros [= <-]. rewrite Hch. split_and!; try done; [| by left].
    eexists. by split_and!.
  - destruct (_config_fetcher self vq) as [vq_config|e]; [| done].
    destruct (decide (¬ config_fits vq_config)); [done |].
    destruct (decide (id_supply w0 (S (created w0)) ∈ task_ids w)); [done |].
    simpl. intros [= <-]. rewrite Hch. split_and!; try done.
    + eexists. by split_and!.
    + right. split; [done |]. by exists vq_config.
Qed.

(** A failed [enqueue] leaves the database as it was. *)
Lemma enqueue_Raise_db (self : Coordinator) data vq prio delay (w : World) (e : exn) :
  (enqueue self data vq prio delay w).1 = Raise e →
  db (enqueue self data vq prio delay w).2 = db w
  ∧ channel (enqueue self data vq prio delay w).2 = channel w.
Proof.
  rewrite enqueue_eq. cbv zeta.
  set (w0 := if decide (delay ≠ 0) then tick w else w).
  assert (db w0 = db w ∧ channel w0 = channel w) as [Hdb Hch].
  { unfold w0. by case_decide. }
  destruct (enqueue_visible_at delay w) as [v|]; [| done].
  rewrite enqueue_store_eq. cbv zeta. rewrite Hdb.
  destruct (decide (¬ int64 prio)); [done |].
  destruct (decide (id_supply w0 (created w0) ∈ task_ids w0)); [done |].
  destruct (decide (vq ∈ model.name <$> vqs (db w))); [done |].
  destruct (_config_fetcher self vq) as [vq_config|e']; [| done].
  destruct (decide (¬ config_fits vq_config)); [done |].
  destruct (decide (id_supply w0 (S (created w0)) ∈ task_ids w0)); done.
Qed.

(** When the priority and the delay fit, the identifiers the model is about
    to assign are free, and the queue is known or has a policy that fits,
    [enqueue] returns. *)
Lemma enqueue_returns (self : Coordinator) data vq prio delay (w : World) :
  int64 prio →
  is_Some (enqueue_visible_at delay w) →
  id_supply w (created w) ∉ task_ids w →
  id_supply w (S (created w)) ∉ task_ids w →
  (vq ∈ model.name <$> vqs (db w)
   ∨ ∃ vq_config, _config_fetcher self vq = Ok vq_config ∧ config_fits vq_config) →
  ∃ i, (enqueue self data vq prio delay w).1 = Ok i.
Proof.
  intros Hp [v Hv] H1 H2 Hq. rewrite enqueue_eq. cbv zeta. rewrite Hv.
  rewrite enqueue_store_eq. cbv zeta.
  set (w0 := if decide (delay ≠ 0) then tick w else w).
  assert (db w0 = db w ∧ id_supply w0 = id_supply w ∧ created w0 = created w)
    as (Hdb & Hi & Hc).
  { unfold w0. by case_decide. }
  assert (task_ids w0 = task_ids w) as Hids by (unfold task_ids; by rewrite Hdb).
  rewrite Hids, Hdb, Hi, Hc.
  rewrite (decide_False (P := ¬ int64 prio)) by (intros H; by apply H).
  rewrite (decide_False (P := id_supply w (created w) ∈ task_ids w)) by done.
  destruct (decide (vq ∈ model.name <$> vqs (db w))) as [Hvq|Hvq]; [simpl; eauto |].
  destruct Hq as [Hq|(vq_config & -> & Hfit)]; [done |].
  rewrite (decide_False (P := ¬ config_fits vq_config)) by (intros H; by apply H).
  rewrite (decide_False (P := id_supply w (S (created w)) ∈ task_ids w)) by done.
  simpl. eauto.
Qed.

(** A task that is not due yet is not read, and stays as it is. *)
Lemma _read_not_due_before (self : Coordinator) (i : string) (v : Qc) (w : World) :
  not_due_before i v w → not_due_before i v (_read self w).2.
Proof.
  intros [Hrows Hclock]. rewrite _read_eq.
  destruct (select_task (now w) (db w)) as [task|]; split; simpl.
  - intros row' Hin Hid.
    apply list_elem_of_fmap in Hin as (t & -> & Ht).
    case_decide as Hw; [| by apply Hrows].
    exfalso. destruct Hw as (_ & _ & _ & Hdue).
    specialize (Hrows t Ht Hid). specialize (Hclock (ticks w) (le_n _)).
    eapply Qclt_not_le; [exact Hclock |]. by eapply Qcle_trans.
  - intros k Hk. apply Hclock. lia.
  - done.
  - intros k Hk. apply Hclock. lia.
Qed.

Lemma _read_skips_not_due (self : Coordinator) (i : string) (v : Qc) (w : World) (t : Task) :
  not_due_before i v w → (_read self w).1 = Ok (Some t) → task_id t ≠ i.
Proof.
  intros [Hrows Hclock] H Hid.
  apply _read_Some in H as (r & Hr & _ & Hlayer & _).
  apply elem_of_priority_layer_query in Hlayer as [Hav _].
  apply elem_of_available_task_query in Hav as (Ht & _ & _ & _ & Hdue).
  specialize (Hrows r.1 Ht (eq_trans Hr Hid)). specialize (Hclock (ticks w) (le_n _)).
  eapply Qclt_not_le; [exact Hclock |]. by eapply Qcle_trans.
Qed.

Lemma each_read_skips_not_due (self : Coordinator) (i : string) (v : Qc)
    (l : list Task) (w : World) :
  not_due_before i v w →
  each_read (λ _ _, True) self w l →
  ∀ t, t ∈ l → task_id t ≠ i.
Proof.
  revert w. induction l as [|t l IH]; intros w Hnd Hl t' Hin.
  - by apply elem_of_nil in Hin.
  - destruct Hl as (Hr & _ & Hl). apply elem_of_cons in Hin as [->|Hin].
    + by eapply _read_skips_not_due.
    + eapply IH; [| exact Hl | exact Hin]. by apply _read_not_due_before.
Qed.

Lemma receive_skips_not_due (self : Coordinator) (max_number wait_time_seconds : Z)
    (i : string) (v : Qc) (w : World) (l : list Task) :
  not_due_before i v w →
  (receive self max_number wait_time_seconds w).1 = Ok l →
  ∀ t, t ∈ l → task_id t ≠ i.
Proof.
  intros Hnd H.
  pose proof (receive_run_receive self max_number wait_time_seconds w) as Hrun.
  destruct (receive self max_number wait_time_seconds w) as [r w']. simpl in H. subst r.
  destruct (receive_run_reads self max_number wait_time_seconds (λ _ _, True)
              [] w l w' (λ _ _ _, I) Hrun) as (l' & -> & Hl').
  by eapply each_read_skips_not_due.
Qed.

Lemma enqueue_Ok (self : Coordinator) data vq prio delay (w : World) (i : string) :
  (enqueue self data vq prio delay w).1 = Ok i →
  ∃ row,
    tasks (db (enqueue self data vq prio delay w).2) = tasks (db w) ++ [row]
    ∧ model.id row = i
    ∧ (i ∉ task_ids w)
    ∧ enqueue_visible_at delay w = Some (model.visible_at row)
    ∧ model.status row = model.DEFAULT_STATUS.
Proof.
  intros Hi.
  destruct (enqueue_Ok_full self data vq prio delay w i Hi)
    as ((row & Ht & Hid & Hfresh & _ & _ & _ & Hs & Hv) & _).
  exists row. done.
Qed.

(** C9, as the code has it. Every call of [enqueue] that returns appends one
    row under the identifier it returns, an identifier no other row has.
    The row's [visible_at] is 0 when [delay_millis] is 0; otherwise
    [delay_millis] fits a float and [visible_at] is the binary64 sum of the
    time [enqueue] read and [delay_millis / 1000.0].  So no [receive] that
    runs while the clock is below that [visible_at] returns the task. *)
Theorem C9_enqueue_visible_at (self : Coordinator) (data : list Byte.byte) (vq : string)
    (prio delay : Z) (w : World) (i : string) :
  (enqueue self data vq prio delay w).1 = Ok i →
  let w' := (enqueue self data vq prio delay w).2 in
  ∃ row,
    tasks (db w') = tasks (db w) ++ [row]
    ∧ model.id row = i
    ∧ (i ∉ task_ids w)
    ∧ (delay = 0 → model.visible_at row = Z2T 0)
    ∧ (delay ≠ 0 →
       ∃ d, float.of_int delay = Some d
            ∧ model.visible_at row = float.add (now w) (float.div d (Z2T 1000)))
    ∧ (∀ (w2 : World) (max_number wait_time_seconds : Z) (l : list Task),
         db w2 = db w' →
         (∀ k, (ticks w2 ≤ k)%nat → (clock w2 k < model.visible_at row)%Qc) →
         (receive self max_number wait_time_seconds w2).1 = Ok l →
         ∀ t, t ∈ l → task_id t ≠ i).
Proof.
  intros Hi w'.
  destruct (enqueue_Ok _ _ _ _ _ _ _ Hi) as (row & Ht & Hid & Hfresh & Hv & _).
  exists row. unfold enqueue_visible_at in Hv. split_and!; try done.
  - intros ->. simpl in Hv. congruence.
  - intros Hd. rewrite decide_False in Hv by done.
    destruct (float.of_int delay) as [d|]; [| done].
    exists d. split; [done |]. simpl in Hv. congruence.
  - intros w2 max_number wait_time_seconds l Hdb Hclock Hl.
    eapply receive_skips_not_due; [| exact Hl]. split; [| exact Hclock].
    intros row' Hin Hid'. rewrite Hdb in Hin. fold w' in Ht. rewrite Ht in Hin.
    apply elem_of_app in Hin as [Hin|Hin].
    + exfalso. apply Hfresh. unfold task_ids. apply list_elem_of_fmap.
      exists row'. done.
    + apply list_elem_of_singleton in Hin as ->. apply Qcle_refl.
Qed.

(** One millisecond of delay at time 1000: the stored [visible_at] is the
    binary64 number next below 1000.001, and a [receive] at time 1000 does
    not return the task. *)
Lemma C9_witness :
  (enqueue Examples.self [] "q" 50 1 Examples.w_queue).1 = Ok "a"
  ∧ ∃ row,
      tasks (db (enqueue Examples.self [] "q" 50 1 Examples.w_queue).2) = [] ++ [row]
      ∧ model.id row = "a"
      ∧ model.visible_at row = Q2Qc (4398050909150511 # 4398046511104)
      ∧ (receive Examples.self 1 0
           (enqueue Examples.self [] "q" 50 1 Examples.w_queue).2).1 = Ok [].
Proof.
  split; [vm_compute; reflexivity |].
  destruct (C9_enqueue_visible_at Examples.self [] "q" 50 1 Examples.w_queue "a")
    as (row & Ht & Hid & _ & _ & Hv & _); [vm_compute; reflexivity |].
  exists row. split; [exact Ht |]. split; [exact Hid |].
  split; [| vm_compute; reflexivity].
  destruct Hv as (d & Hd & ->); [discriminate |].
  vm_compute in Hd. injection Hd as <-. apply Qc_is_canon. vm_compute. reflexivity.
Defined.

(** C9 as stated fails: with no delay the new row's [visible_at] is 0, while
    the row was created at time 1000 (every reading of the clock is 1000,
    and so is [queued_at]). *)
Lemma C9_counterexample :
  let w := Examples.w_queue in
  let r := enqueue Examples.self [] "q" 50 0 w in
  (∀ n, clock w n = Z2T 1000)
  ∧ r.1 = Ok "a"
  ∧ ∃ row, tasks (db r.2) = [row]
      ∧ model.id row = "a"
      ∧ model.queued_at row = Z2T 1000
      ∧ model.visible_at row = Z2T 0
      ∧ model.visible_at row ≠ Z2T 1000.
Proof.
  split; [done |]. split; [vm_compute; reflexivity |].
  eexists. split; [vm_compute; reflexivity |]. simpl. split_and!; try reflexivity.
  intros H. apply (f_equal this) in H. vm_compute in H. discriminate H.
Qed.

(** ** The size of what [receive] returns *)

(** C10. A store whose only task is not due yet, so that fewer than
    [max_number] tasks can be handed out, none in fact.  [receive(3)] with
    no wait returns the empty list, and [receive(0, 5)] returns it without
    touching the world, but [receive(3, 5)] raises [NotImplementedError]
    where the empty list was due. *)
Theorem C10_short_answer_raises :
  let w := MoreExamples.w_not_due in
  available_task_query (now w) (db w) = []
  ∧ (receive Examples.self 3 0 w).1 = Ok []
  ∧ receive Examples.self 0 5 w = (Ok [], w)
  ∧ (receive Examples.self 3 5 w).1 = Raise NotImplementedError.
Proof. vm_compute. repeat split. Qed.

(** X15. For [max_number >= 0], a list that [receive] returns has at most
    [max_number] tasks, and it is shorter than [max_number] only when, after
    the reads that gave its tasks, no row was eligible; and with
    [max_number = 0] the empty list is returned and the world is untouched
    (no read of the clock or of the store). *)
Theorem X15_receive_bounded (self : Coordinator) (max_number wait_time_seconds : Z)
    (w : World) :
  0 ≤ max_number →
  (∀ l, (receive self max_number wait_time_seconds w).1 = Ok l →
        Z.of_nat (length l) ≤ max_number
        ∧ (Z.of_nat (length l) < max_number →
           available_task_query (now (after_reads self w (length l)))
             (db (after_reads self w (length l))) = []))
  ∧ receive self 0 wait_time_seconds w = (Ok [], w).
Proof.
  intros Hmax.
  pose proof (receive_run_receive self max_number wait_time_seconds w) as Hrun.
  split; [| reflexivity].
  intros l Hl. destruct (receive self max_number wait_time_seconds w) as [r w'].
  simpl in Hl. subst r. split.
  - apply receive_run_length in Hrun. simpl in Hrun. lia.
  - apply receive_run_end in Hrun as (n & Hlen & [[Hfull _]|(_ & Hnone & _)]).
    + lia.
    + intros _. simpl in Hlen. rewrite Hlen. by apply _read_None in Hnone.
Qed.

Lemma X15_witness :
  0 ≤ 5
  ∧ (receive Examples.self 5 0 Examples.w_layers).1
    = Ok [mkTask "t4" []; mkTask "t3" []; mkTask "t2" []; mkTask "t1" []]
  ∧ ∀ l, (receive Examples.self 5 0 Examples.w_layers).1 = Ok l →
         Z.of_nat (length l) ≤ 5.
Proof.
  split; [lia |]. split; [vm_compute; reflexivity |].
  intros l Hl.
  by destruct (X15_receive_bounded Examples.self 5 0 Examples.w_layers
                 ltac:(lia)) as [H _]; destruct (H l Hl).
Defined.

(** * Further properties of the coordinator *)

(** ** What [receive] leaves alone *)

(** A property of the world that every [_read] keeps holds when the loop of
    [receive] ends. *)
Lemma receive_run_inv (self : Coordinator) (max_number wait_time_seconds : Z)
    (Inv : World → Prop) acc w r :
  (∀ w, Inv w → Inv (_read self w).2) →
  receive_run self max_number wait_time_seconds acc w r →
  Inv w → Inv r.2.
Proof.
  intros Hstep. induction 1 as [acc w|acc w|acc w|acc w t r Hlt Hr Hrun IH];
    intros Hw; simpl; auto.
Qed.

Lemma fixed_columns_lease (task : Candidate) (current_ts : Qc) (t : model.Task) :
  fixed_columns (lease task current_ts t) = fixed_columns t.
Proof. reflexivity. Qed.

Lemma same_but_leases_refl (w : World) : same_but_leases w w.
Proof. by repeat split. Qed.

Lemma _read_same_but_leases (self : Coordinator) (w0 w : World) :
  same_but_leases w0 w → same_but_leases w0 (_read self w).2.
Proof.
  intros (Hq & He & Hc & Hk & Hi & Hn & Ht). rewrite _read_eq.
  destruct (select_task (now w) (db w)) as [task|]; [| by repeat split].
  unfold same_but_leases, claim, update_where. simpl. split_and!; try done.
  rewrite <- Ht, <- list_fmap_compose. apply list_fmap_ext.
  intros ? t _. simpl. by case_decide.
Qed.

(** X1. [receive] writes nothing but [status] and [visible_at] of task rows:
    whatever it returns or raises, the queues, the error log, the channel
    and all other columns of the task table (so also the number of rows and
    their identifiers) are as before. *)
Theorem X1_receive_frame (self : Coordinator) (max_number wait_time_seconds : Z)
    (w : World) :
  same_but_leases w (receive self max_number wait_time_seconds w).2.
Proof.
  apply (receive_run_inv self max_number wait_time_seconds (same_but_leases w) [] w).
  - apply _read_same_but_leases.
  - apply receive_run_receive.
  - apply same_but_leases_refl.
Qed.

(** ** When [receive] raises *)

Lemma receive_run_raise (self : Coordinator) (max_number wait_time_seconds : Z)
    acc w r e :
  receive_run self max_number wait_time_seconds acc w r →
  r.1 = Raise e →
  acc = [] ∧ e = NotImplementedError ∧ 0 < max_number ∧ 0 < wait_time_seconds
  ∧ (_read self w).1 = Ok None.
Proof.
  induction 1 as [acc w|acc w|acc w Hlt Hr Hn Hw|acc w t r Hlt Hr Hrun IH];
    simpl; intros He; try done.
  - injection He as <-. subst acc. simpl in Hlt. done.
  - destruct (IH He) as (Hnil & _). by destruct acc.
Qed.

(** X2. [receive] raises in one situation only: [max_number] and
    [wait_time_seconds] are positive and the first read finds no eligible
    row; the exception is then [NotImplementedError].  In particular a list
    that already holds a task is returned, never dropped for an
    exception. *)
Theorem X2_receive_raises_iff (self : Coordinator) (max_number wait_time_seconds : Z)
    (w : World) (e : exn) :
  (receive self max_number wait_time_seconds w).1 = Raise e
  ↔ e = NotImplementedError ∧ 0 < max_number ∧ 0 < wait_time_seconds
    ∧ available_task_query (now w) (db w) = [].
Proof.
  split.
  - intros He.
    destruct (receive_run_raise _ _ _ _ _ _ _ (receive_run_receive _ _ _ w) He)
      as (_ & -> & Hm & Hw & Hnone).
    by apply _read_None in Hnone.
  - intros (-> & Hm & Hw & Ha). by rewrite receive_nothing_wait.
Qed.

(** ** Hidden queues *)

Lemma _read_suppressed (self : Coordinator) (i : string) (w : World) :
  suppressed i w → suppressed i (_read self w).2.
Proof.
  intros Hs. rewrite _read_eq.
  destruct (select_task (now w) (db w)) as [task|]; [| exact Hs].
  intros row q Hrow Hid Hq Hname. simpl in Hrow, Hq.
  apply list_elem_of_fmap in Hrow as (t & -> & Ht).
  apply (Hs t q); [done | | done |]; by case_decide.
Qed.

Lemma _read_skips_suppressed (self : Coordinator) (i : string) (w : World) (t : Task) :
  suppressed i w → (_read self w).1 = Ok (Some t) → task_id t ≠ i.
Proof.
  intros Hs H Hid.
  apply _read_Some in H as (r & Hr & _ & Hlayer & _).
  apply elem_of_priority_layer_query in Hlayer as [Hav _].
  apply elem_of_available_task_query in Hav as (Ht & Hq & Hname & Hh & _).
  rewrite (Hs r.1 r.2 Ht (eq_trans Hr Hid) Hq Hname) in Hh. done.
Qed.

(** X3. A task all of whose queues are hidden is never handed out: no task
    of the list [receive] returns has its identifier, however due it is and
    whatever its priority. *)
Theorem X3_hidden_queue_not_served (self : Coordinator) (max_number wait_time_seconds : Z)
    (i : string) (w : World) (l : list Task) :
  suppressed i w →
  (receive self max_number wait_time_seconds w).1 = Ok l →
  ∀ t, t ∈ l → task_id t ≠ i.
Proof.
  intros Hs H.
  pose proof (receive_run_receive self max_number wait_time_seconds w) as Hrun.
  destruct (receive self max_number wait_time_seconds w) as [r w']. simpl in H. subst r.
  destruct (receive_run_reads self max_number wait_time_seconds
              (λ w t, suppressed i w → task_id t ≠ i) [] w l w') as (l' & -> & Hl').
  { intros w0 t Hr Hs0. by eapply _read_skips_suppressed. }
  { exact Hrun. }
  simpl. clear Hrun. revert w Hs Hl'.
  induction l' as [|t l' IH]; intros w Hs Hl' t' Hin.
  - by apply elem_of_nil in Hin.
  - destruct Hl' as (Hr & Ht & Hl'). apply elem_of_cons in Hin as [->|Hin].
    + by apply Ht.
    + eapply IH; [| exact Hl' | exact Hin]. by apply _read_suppressed.
Qed.

(** ** [ack] on a leased task, and what follows a terminal transition *)

Lemma filter_id_fmap (i : string) (g : model.Task → model.Task) (ts : list model.Task) :
  (∀ t, model.id (g t) = model.id t) →
  filter (λ t, model.id t = i) (g <$> ts) = g <$> filter (λ t, model.id t = i) ts.
Proof.
  intros Hg. induction ts as [|t ts IH]; [done |].
  rewrite fmap_cons, !filter_cons, Hg, IH. by case_decide.
Qed.

(** The status of [i] after the rows with that identifier were rewritten. *)
Lemma status_of_update (w : World) (d : Database) (i : string)
    (f : model.Task → model.Task) (s s' : Z) :
  (∀ t, model.id (f t) = model.id t) →
  (∀ t, model.status (f t) = s') →
  status_of w i = Some s →
  tasks d = (update_where (λ t, model.id t = i) f (tasks (db w))).1 →
  status_of (set_db w d) i = Some s'.
Proof.
  intros Hid Hs E Hd. unfold status_of in *. simpl. rewrite Hd.
  unfold update_where. simpl.
  rewrite filter_id_fmap by (intros t; by case_decide).
  destruct (filter _ (tasks (db w))) as [|t ts] eqn:Ef; [done |].
  simpl. assert (model.id t = i) as Ht.
  { assert (t ∈ filter (λ t, model.id t = i) (tasks (db w))) as Hin by (rewrite Ef; left).
    by apply list_elem_of_filter in Hin as [? _]. }
  by rewrite decide_True, Hs.
Qed.

Lemma ack_leased_eq (self : Coordinator) (w : World) (i : string) :
  status_of w i = Some 50 →
  ack self i w
  = (Ok true,
     set_db (tick w)
       (mkDB (vqs (db w))
          (update_where (λ t, model.id t = i)
             (finish 100 (Z2T _INVISIBLE_TIMESTAMP_SECONDS) (now w)) (tasks (db w))).1
          (task_errors (db w)))).
Proof.
  intros E. guard_step. rewrite E. simpl.
  unfold time_time, save_finished, bind, get_db, put_db. reflexivity.
Qed.

Lemma nack_leased_eq (self : Coordinator) (w : World) (i msg : string) :
  status_of w i = Some 50 →
  nack self i msg w
  = (Ok true,
     set_db (tick w)
       (mkDB (vqs (db w))
          (update_where (λ t, model.id t = i)
             (finish 101 (Z2T _INVISIBLE_TIMESTAMP_SECONDS) (now w)) (tasks (db w))).1
          (task_errors (db w)
           ++ (if decide (msg ≠ EmptyString)
               then [model.mkTaskError i msg (now w)] else [])))).
Proof.
  intros E. guard_step. rewrite E. simpl.
  unfold time_time, save_finished, bind, get_db, put_db. simpl.
  case_decide; simpl; [done |]. by rewrite app_nil_r.
Qed.

(** X4. [ack] on a LEASED task returns true and writes status 100,
    [visible_at] the sentinel [2**31 - 1] and [ended_at] the time read, on
    the rows with that identifier only; the other rows, the queues, the
    error log and the channel are as before. *)
Theorem X4_ack_leased (self : Coordinator) (w : World) (task_id : string) :
  status_of w task_id = Some 50 →
  let w' := (ack self task_id w).2 in
  (ack self task_id w).1 = Ok true
  ∧ tasks (db w')
    = (λ t, if decide (model.id t = task_id)
            then finish 100 (Z2T _INVISIBLE_TIMESTAMP_SECONDS) (now w) t else t)
        <$> tasks (db w)
  ∧ (∀ t', t' ∈ tasks (db w') → model.id t' = task_id →
       model.status t' = 100
       ∧ model.visible_at t' = Z2T (2 ^ 31 - 1)
       ∧ model.ended_at t' = Some (now w))
  ∧ status_of w' task_id = Some 100
  ∧ vqs (db w') = vqs (db w)
  ∧ task_errors (db w') = task_errors (db w)
  ∧ channel w' = channel w.
Proof.
  intros E. rewrite (ack_leased_eq self w task_id E). simpl. split_and!; try done.
  - intros t' Hin Hid.
    apply update_where_id_elem in Hin as (t & _ & _ & ->); done.
  - eapply (status_of_update (tick w)); [| | exact E | reflexivity]; done.
Qed.

(** Rows rewritten by [finish] are not due before the sentinel. *)
Lemma finished_not_due (ts : list model.Task) (i : string) (s : Z) (e : Qc)
    (row : model.Task) :
  row ∈ (update_where (λ t, model.id t = i)
           (finish s (Z2T _INVISIBLE_TIMESTAMP_SECONDS) e) ts).1 →
  model.id row = i →
  (Z2T _INVISIBLE_TIMESTAMP_SECONDS ≤ model.visible_at row)%Qc.
Proof.
  intros Hin Hid.
  apply update_where_id_elem in Hin as (t & _ & _ & ->); [| done | done].
  simpl. apply Qcle_refl.
Qed.

(** X5. A task that was acknowledged, or negatively acknowledged, while
    LEASED is never handed out again: no [receive] that runs on the store
    [ack] or [nack] left, while the clock is below [2**31 - 1], returns
    it. *)
Theorem X5_terminal_task_not_served (self : Coordinator) (w : World)
    (i msg : string) (w2 : World) (max_number wait_time_seconds : Z)
    (l : list Task) :
  status_of w i = Some 50 →
  db w2 = db (ack self i w).2 ∨ db w2 = db (nack self i msg w).2 →
  (∀ k, (ticks w2 ≤ k)%nat → (clock w2 k < Z2T _INVISIBLE_TIMESTAMP_SECONDS)%Qc) →
  (receive self max_number wait_time_seconds w2).1 = Ok l →
  ∀ t, t ∈ l → task_id t ≠ i.
Proof.
  intros E Hdb Hclock Hl.
  eapply receive_skips_not_due; [| exact Hl]. split; [| exact Hclock].
  destruct Hdb as [Hdb|Hdb]; rewrite Hdb.
  - rewrite (ack_leased_eq self w i E).
    intros row. apply (finished_not_due (tasks (db w)) i 100 (now w) row).
  - rewrite (nack_leased_eq self w i msg E).
    intros row. apply (finished_not_due (tasks (db w)) i 101 (now w) row).
Qed.

(** X6. A terminal state absorbs.  After [ack] on a LEASED task a second
    [ack] returns true and changes nothing, and [nack] and [requeue] return
    false and change nothing.  After [nack] on a LEASED task a second [nack]
    returns true and changes nothing (so it records no second error), and
    [ack] and [requeue] return false and change nothing. *)
Theorem X6_terminal_absorbs (self : Coordinator) (w : World) (i msg msg' : string) :
  status_of w i = Some 50 →
  let wa := (ack self i w).2 in
  let wn := (nack self i msg w).2 in
  (ack self i wa = (Ok true, wa)
   ∧ nack self i msg' wa = (Ok false, wa)
   ∧ requeue self i wa = (Ok (Some false), wa))
  ∧ (nack self i msg' wn = (Ok true, wn)
     ∧ ack self i wn = (Ok false, wn)
     ∧ requeue self i wn = (Ok (Some false), wn)).
Proof.
  intros E wa wn.
  assert (status_of wa i = Some 100) as Ha.
  { unfold wa. rewrite (ack_leased_eq self w i E). simpl.
    eapply (status_of_update (tick w)); [| | exact E | reflexivity]; done. }
  assert (status_of wn i = Some 101) as Hn.
  { unfold wn. rewrite (nack_leased_eq self w i msg E). simpl.
    eapply (status_of_update (tick w)); [| | exact E | reflexivity]; done. }
  split; split_and!.
  - by apply ack_succeeded.
  - by eapply nack_invalid.
  - by eapply requeue_invalid.
  - by apply nack_failed.
  - by eapply ack_invalid.
  - by eapply requeue_invalid.
Qed.

(** X7. What [ack], [nack] and [requeue] answer and when they write.  [ack]
    returns true exactly when the task is LEASED or SUCCEEDED, [nack]
    exactly when it is LEASED or FAILED; each of them changes the world only
    when the task is LEASED; and [requeue] never changes the world. *)
Theorem X7_guards_read_only (self : Coordinator) (w : World) (i msg : string) :
  ((ack self i w).1 = Ok true ↔ status_of w i = Some 50 ∨ status_of w i = Some 100)
  ∧ ((nack self i msg w).1 = Ok true ↔ status_of w i = Some 50 ∨ status_of w i = Some 101)
  ∧ (status_of w i ≠ Some 50 → (ack self i w).2 = w ∧ (nack self i msg w).2 = w)
  ∧ (requeue self i w).2 = w.
Proof.
  split_and!.
  - split.
    + intros H. destruct (status_of w i) as [s|] eqn:E.
      * destruct (decide (s = 50)) as [->|H50]; [by left |].
        destruct (decide (s = 100)) as [->|H100]; [by right |].
        by rewrite (ack_invalid self i w s E H100 H50) in H.
      * by rewrite (ack_not_found self i w E) in H.
    + intros [E|E]; [by rewrite (ack_leased_eq self w i E) |].
      by rewrite (ack_succeeded self i w E).
  - split.
    + intros H. destruct (status_of w i) as [s|] eqn:E.
      * destruct (decide (s = 50)) as [->|H50]; [by left |].
        destruct (decide (s = 101)) as [->|H101]; [by right |].
        by rewrite (nack_invalid self i msg w s E H101 H50) in H.
      * by rewrite (nack_not_found self i msg w E) in H.
    + intros [E|E]; [by rewrite (nack_leased_eq self w i msg E) |].
      by rewrite (nack_failed self i msg w E).
  - intros H50. destruct (status_of w i) as [s|] eqn:E.
    + assert (s ≠ 50) as Hs by congruence. split.
      * destruct (decide (s = 100)) as [->|H100];
          [by rewrite (ack_succeeded self i w E) |].
        by rewrite (ack_invalid self i w s E H100 Hs).
      * destruct (decide (s = 101)) as [->|H101];
          [by rewrite (nack_failed self i msg w E) |].
        by rewrite (nack_invalid self i msg w s E H101 Hs).
    + by rewrite (ack_not_found self i w E), (nack_not_found self i msg w E).
  - destruct (status_of w i) as [s|] eqn:E.
    + destruct (decide (s < 10)) as [Hlt|Hge];
        [by rewrite (requeue_unstarted self i w s E Hlt) |].
      destruct (decide (s = 50)) as [->|H50];
        [by rewrite (requeue_wip self i w E) |].
      rewrite (requeue_invalid self i w s E); [done | lia | done].
    + by rewrite (requeue_not_found self i w E).
Qed.

(** ** [enqueue]: the queue table, the channel and failures *)

(** X8. What a successful [enqueue] leaves behind: one new task row, last in
    the table, with the identifier returned and the payload, queue name and
    priority given; the queue table as it was when the queue is known, and
    with one more row, built from the policy the configuration gave and not
    hidden, when it is not; the queue of the task in the table; queue names
    unique if they were; the error log untouched; and the identifier sent on
    the channel, once. *)
Theorem X8_enqueue_effects (self : Coordinator) (data : list Byte.byte) (vq : string)
    (prio delay : Z) (w : World) (i : string) :
  (enqueue self data vq prio delay w).1 = Ok i →
  let w' := (enqueue self data vq prio delay w).2 in
  (∃ row,
     tasks (db w') = tasks (db w) ++ [row]
     ∧ model.id row = i ∧ model.data row = data ∧ model.vqueue_name row = vq
     ∧ model.priority row = prio)
  ∧ ((vq ∈ model.name <$> vqs (db w)) ∧ vqs (db w') = vqs (db w)
     ∨ (vq ∉ model.name <$> vqs (db w))
       ∧ ∃ vq_config, _config_fetcher self vq = Ok vq_config
           ∧ vqs (db w') = vqs (db w) ++ [new_vq vq vq_config])
  ∧ (vq ∈ model.name <$> vqs (db w'))
  ∧ (NoDup (model.name <$> vqs (db w)) → NoDup (model.name <$> vqs (db w')))
  ∧ task_errors (db w') = task_errors (db w)
  ∧ channel w' = channel w ++ [i].
Proof.
  intros Hi w'.
  destruct (enqueue_Ok_full self data vq prio delay w i Hi)
    as ((row & Ht & Hid & _ & Hd & Hq & Hp & _) & Hvqs & Herr & Hch).
  fold w' in Ht, Hvqs, Herr, Hch. split_and!; try done.
  - exists row. by split_and!.
  - destruct Hvqs as [[Hvq ->]|(Hvq & vq_config & _ & ->)]; [done |].
    rewrite fmap_app. apply elem_of_app. right. left.
  - intros Hnd. destruct Hvqs as [[Hvq ->]|(Hvq & vq_config & _ & ->)]; [done |].
    rewrite fmap_app. apply list.NoDup_app. split; [done |].
    split; [| apply NoDup_singleton].
    intros x Hx Hx'. apply list_elem_of_singleton in Hx'. by subst x.
Qed.

(** X9. A failed [enqueue] leaves no trace in the store: when it raises, the
    database is as it was, so the queue row inserted for an unknown name is
    rolled back together with the task that could not be inserted, and
    nothing is sent on the channel. *)
Theorem X9_enqueue_failure_rolls_back (self : Coordinator) (data : list Byte.byte)
    (vq : string) (prio delay : Z) (w : World) (e : exn) :
  (enqueue self data vq prio delay w).1 = Raise e →
  db (enqueue self data vq prio delay w).2 = db w
  ∧ channel (enqueue self data vq prio delay w).2 = channel w.
Proof.
  intros He.
  destruct (enqueue self data vq prio delay w) as [r w'] eqn:E. simpl in *.
  pose proof (enqueue_Raise_db self data vq prio delay w e) as H.
  rewrite E in H. by apply H.
Qed.

(** ** A lease, when identifiers are unique *)

Lemma receive_one (self : Coordinator) (wait_time_seconds : Z) (w : World) (t : Task) :
  (_read self w).1 = Ok (Some t) →
  receive self 1 wait_time_seconds w = (Ok [t], (_read self w).2).
Proof.
  intros Hr. eapply receive_run_det; [apply receive_run_receive |].
  eapply run_task; [simpl; lia | exact Hr |]. apply run_full. simpl. lia.
Qed.


Lemma filter_id_unique (ts : list model.Task) (t : model.Task) :
  NoDup (model.id <$> ts) → t ∈ ts →
  filter (λ x, model.id x = model.id t) ts = [t].
Proof.
  induction ts as [|a ts IH]; intros Hnd Hin; [by apply elem_of_nil in Hin |].
  rewrite fmap_cons in Hnd. apply list.NoDup_cons in Hnd as [Ha Hnd].
  rewrite filter_cons. apply elem_of_cons in Hin as [->|Hin].
  - rewrite decide_True by done. f_equal.
    destruct (filter _ ts) as [|b l] eqn:E; [done |]. exfalso. apply Ha.
    assert (b ∈ filter (λ x, model.id x = model.id a) ts) as Hb by (rewrite E; left).
    apply list_elem_of_filter in Hb as [<- Hb]. by apply list_elem_of_fmap_2.
  - rewrite decide_False; [by apply IH |].
    intros E. apply Ha. rewrite E. by apply list_elem_of_fmap_2.
Qed.

Lemma filter_ext_elem (P Q : model.Task → Prop) `{!∀ x, Decision (P x)}
    `{!∀ x, Decision (Q x)} (ts : list model.Task) :
  (∀ x, x ∈ ts → P x ↔ Q x) → filter P ts = filter Q ts.
Proof.
  induction ts as [|a ts IH]; intros Hext; [done |].
  rewrite !filter_cons, IH by (intros; apply Hext; by right).
  destruct (decide (P a)) as [HP|HP], (decide (Q a)) as [HQ|HQ]; try done.
  - exfalso. apply HQ. apply (Hext a); [left | done].
  - exfalso. apply HP. apply (Hext a); [left | done].
Qed.

(** The chosen row, when PENDING, satisfies the [where] of the update. *)
Lemma claim_where_chosen (current_ts : Qc) (d : Database) (r : Row) :
  r ∈ priority_layer_query current_ts d →
  model.status r.1 < 10 →
  claim_where d (select_columns r) current_ts r.1.
Proof.
  intros Hr Hs.
  apply elem_of_priority_layer_query in Hr as [Hr _].
  apply elem_of_available_task_query in Hr as (Ht & Hq & Hn & Hh & Hv).
  unfold claim_where. split_and!; try done. simpl. unfold vq_query.
  assert (r.2 ∈ filter (λ q, model.hidden q = false
                             ∧ model.name q = model.vqueue_name r.1) (vqs d)) as Hin.
  { apply list_elem_of_filter. done. }
  destruct (filter _ (vqs d)) as [|q qs] eqn:E; [by apply elem_of_nil in Hin |].
  assert (q ∈ filter (λ q, model.hidden q = false
                           ∧ model.name q = model.vqueue_name r.1) (vqs d)) as Hq'.
  { rewrite E. left. }
  apply list_elem_of_filter in Hq' as [[_ Hname] _]. simpl. by rewrite Hname.
Qed.

(** With unique identifiers, a read that picks a PENDING task leases the one
    row with its identifier, and the update matches exactly one row. *)
Lemma _read_leases (self : Coordinator) (w : World) (t : Task) :
  NoDup (task_ids w) →
  (_read self w).1 = Ok (Some t) →
  (∀ row, row ∈ tasks (db w) → model.id row = task_id t → model.status row < 10) →
  ∃ r : Row,
    r ∈ priority_layer_query (now w) (db w)
    ∧ model.id r.1 = task_id t ∧ model.data r.1 = task_data t
    ∧ tasks (db (_read self w).2)
      = (λ x, if decide (model.id x = task_id t)
              then lease (select_columns r) (now w) x else x) <$> tasks (db w)
    ∧ (claim (db w) (select_columns r) (now w)).2 = 1%nat.
Proof.
  intros Hnd Hread Hpending. revert Hread. rewrite _read_eq.
  destruct (select_task (now w) (db w)) as [task|] eqn:E; [| done].
  simpl. intros [= <-].
  apply select_task_Some in E as (r & -> & Hr & _).
  assert (r.1 ∈ tasks (db w)) as Hin.
  { apply elem_of_priority_layer_query in Hr as [Hr _].
    by apply elem_of_available_task_query in Hr as (? & _). }
  assert (claim_where (db w) (select_columns r) (now w) r.1) as Hw.
  { apply claim_where_chosen; [done |]. by apply Hpending. }
  assert (∀ x, x ∈ tasks (db w) →
            claim_where (db w) (select_columns r) (now w) x ↔ model.id x = model.id r.1)
    as Hiff.
  { intros x Hx. split; [by intros (_ & ? & _) |]. intros Hid.
    assert (x ∈ filter (λ y, model.id y = model.id r.1) (tasks (db w))) as Hf
      by (by apply list_elem_of_filter).
    rewrite (filter_id_unique _ r.1 Hnd Hin) in Hf.
    apply list_elem_of_singleton in Hf. by subst x. }
  exists r. split; [done |]. split; [done |]. split; [done |]. split.
  - unfold claim, update_where. simpl. apply list_fmap_ext. intros k x Hk.
    apply list_elem_of_lookup_2 in Hk. specialize (Hiff x Hk).
    destruct (decide (claim_where _ _ _ x)) as [HP|HP],
             (decide (model.id x = model.id r.1)) as [HQ|HQ]; try done.
    + exfalso. exact (HQ (proj1 Hiff HP)).
    + exfalso. exact (HP (proj2 Hiff HQ)).
  - unfold claim, update_where. simpl.
    rewrite (filter_ext_elem _ (λ x, model.id x = model.id r.1) _ Hiff).
    by rewrite (filter_id_unique _ r.1 Hnd Hin).
Qed.


(** ** From [enqueue] to [ack] *)

(** X11. Round trip on a store without tasks.  When no queue named
    [vqueue_name] is hidden, [enqueue] returns an identifier and the new
    task is due at the time of the next read, [receive(1)] returns exactly
    the task with that identifier and the payload given, [ack] on it
    returns true, and a second [ack] returns true and changes nothing. *)
Theorem X11_round_trip (self : Coordinator) (data : list Byte.byte) (vq : string)
    (prio delay : Z) (w : World) (i : string) :
  tasks (db w) = [] →
  (∀ q, q ∈ vqs (db w) → model.name q = vq → model.hidden q = false) →
  (enqueue self data vq prio delay w).1 = Ok i →
  (∀ row, row ∈ tasks (db (enqueue self data vq prio delay w).2) →
          (model.visible_at row ≤ now (enqueue self data vq prio delay w).2)%Qc) →
  ∃ w2 w3 : World,
    receive self 1 0 (enqueue self data vq prio delay w).2 = (Ok [mkTask i data], w2)
    ∧ ack self i w2 = (Ok true, w3)
    ∧ ack self i w3 = (Ok true, w3).
Proof.
  intros Hempty Hshown Hi Hdue.
  destruct (enqueue_Ok_full self data vq prio delay w i Hi)
    as ((row & Ht & Hid & _ & Hd & Hq & _ & Hs & _) & Hvqs & _ & _).
  destruct (enqueue self data vq prio delay w) as [res w1] eqn:Ee.
  simpl in Hi, Ht, Hvqs, Hdue. subst res. rewrite Hempty in Ht. simpl in Ht.
  (* the new row is available *)
  assert (∃ q, q ∈ vqs (db w1) ∧ model.name q = vq ∧ model.hidden q = false)
    as (q & Hqin & Hqn & Hqh).
  { destruct Hvqs as [[Hk ->]|(_ & vq_config & _ & ->)].
    - apply list_elem_of_fmap in Hk as (q & -> & Hq'). exists q. auto.
    - exists (new_vq vq vq_config). split; [| done]. apply elem_of_app. right. left. }
  assert ((row, q) ∈ available_task_query (now w1) (db w1)) as Hav.
  { apply elem_of_available_task_query. simpl. rewrite Ht, Hq.
    split_and!; try done; [left |]. apply Hdue. rewrite Ht. left. }
  (* so the read returns it *)
  destruct (_read_never_raises self w1) as [[t|] Hread].
  2: { apply _read_None in Hread. rewrite Hread in Hav. by apply elem_of_nil in Hav. }
  destruct (_read_Some self w1 t Hread) as (r & Hrid & Hrd & Hr & _).
  assert (r.1 = row) as Hr1.
  { apply elem_of_priority_layer_query in Hr as [Hr _].
    apply elem_of_available_task_query in Hr as (Hin & _).
    rewrite Ht in Hin. by apply list_elem_of_singleton in Hin. }
  assert (t = mkTask i data) as ->.
  { destruct t as [ti td]. simpl in *. congruence. }
  exists (_read self w1).2.
  (* and leases the row *)
  destruct (_read_leases self w1 (mkTask i data)) as (r' & _ & _ & _ & Ht2 & _).
  { unfold task_ids. rewrite Ht. simpl. apply NoDup_singleton. }
  { exact Hread. }
  { intros row' Hin _. rewrite Ht in Hin. apply list_elem_of_singleton in Hin.
    subst row'. rewrite Hs. done. }
  rewrite Ht in Ht2. simpl in Ht2. rewrite decide_True in Ht2 by done.
  assert (status_of (_read self w1).2 i = Some 50) as H50.
  { unfold status_of. rewrite Ht2. rewrite filter_cons, decide_True by done. done. }
  eexists. split; [by apply receive_one |].
  split; [by apply ack_leased_eq |].
  apply ack_succeeded.
  eapply (status_of_update (tick (_read self w1).2)); [| | exact H50 | reflexivity]; done.
Qed.

(** ** The empty answer *)

(** X12. [receive] returns the empty list in two situations only:
    [max_number] is not positive, or there is no wait and no row is eligible
    at the first read. *)
Theorem X12_receive_empty_iff (self : Coordinator) (max_number wait_time_seconds : Z)
    (w : World) :
  (receive self max_number wait_time_seconds w).1 = Ok []
  ↔ max_number ≤ 0
    ∨ (wait_time_seconds ≤ 0 ∧ available_task_query (now w) (db w) = []).
Proof.
  split.
  - intros H. pose proof (receive_run_receive self max_number wait_time_seconds w) as Hrun.
    destruct (receive self max_number wait_time_seconds w) as [r w']. simpl in H. subst r.
    inversion Hrun as [acc' w0 Hge|acc' w0 Hlt Hnone Hc| |acc' w0 t r' Hlt Hsome Hrest];
      subst.
    + left. simpl in Hge. lia.
    + right. destruct Hc as [Hc|Hc]; [done |]. split; [done |].
      by apply (_read_None self w).
    + exfalso.
      destruct (receive_run_reads self max_number wait_time_seconds (λ _ _, True)
                  ([] ++ [t]) _ [] w' (λ _ _ _, I) Hrest) as (l' & El & _).
      simpl in El. discriminate El.
  - intros [Hm|[Hw Ha]].
    + unfold receive. replace (Z.to_nat max_number) with 0%nat by lia. done.
    + destruct (decide (0 < max_number)) as [Hm|Hm].
      * by rewrite receive_nothing_no_wait.
      * unfold receive. replace (Z.to_nat max_number) with 0%nat by lia. done.
Qed.

(** ** Invariants of the store *)

Lemma ack_cases (self : Coordinator) (i : string) (w : World) :
  (ack self i w).2 = w ∨ status_of w i = Some 50.
Proof.
  destruct (status_of w i) as [s|] eqn:E.
  - destruct (decide (s = 50)) as [->|H50]; [by right |]. left.
    destruct (decide (s = 100)) as [->|H100]; [by rewrite (ack_succeeded self i w E) |].
    by rewrite (ack_invalid self i w s E H100 H50).
  - left. by rewrite (ack_not_found self i w E).
Qed.

Lemma nack_cases (self : Coordinator) (i msg : string) (w : World) :
  (nack self i msg w).2 = w ∨ status_of w i = Some 50.
Proof.
  destruct (status_of w i) as [s|] eqn:E.
  - destruct (decide (s = 50)) as [->|H50]; [by right |]. left.
    destruct (decide (s = 101)) as [->|H101];
      [by rewrite (nack_failed self i msg w E) |].
    by rewrite (nack_invalid self i msg w s E H101 H50).
  - left. by rewrite (nack_not_found self i msg w E).
Qed.

Lemma requeue_world (self : Coordinator) (i : string) (w : World) :
  (requeue self i w).2 = w.
Proof.
  destruct (status_of w i) as [s|] eqn:E.
  - destruct (decide (s < 10)) as [Hlt|Hge];
      [by rewrite (requeue_unstarted self i w s E Hlt) |].
    destruct (decide (s = 50)) as [->|H50]; [by rewrite (requeue_wip self i w E) |].
    rewrite (requeue_invalid self i w s E); [done | lia | done].
  - by rewrite (requeue_not_found self i w E).
Qed.

Lemma update_where_ids (i : string) (f : model.Task → model.Task) (ts : list model.Task) :
  (∀ t, model.id (f t) = model.id t) →
  model.id <$> (update_where (λ t, model.id t = i) f ts).1 = model.id <$> ts.
Proof.
  intros Hf. unfold update_where. simpl. rewrite <- list_fmap_compose.
  apply list_fmap_ext. intros ? t _. simpl. case_decide; [apply Hf | done].
Qed.

(** X13. The keys stay unique.  If no two task rows share an identifier and
    no two queue rows share a name, the same holds after [enqueue] (whether
    it returns or raises), [receive], [ack], [nack] and [requeue]. *)
Theorem X13_keys_stay_unique (self : Coordinator) (w : World) (data : list Byte.byte)
    (vq i msg : string) (prio delay max_number wait_time_seconds : Z) :
  keys_unique w →
  keys_unique (enqueue self data vq prio delay w).2
  ∧ keys_unique (receive self max_number wait_time_seconds w).2
  ∧ keys_unique (ack self i w).2
  ∧ keys_unique (nack self i msg w).2
  ∧ keys_unique (requeue self i w).2.
Proof.
  intros [Hids Hnames]. split_and!.
  - destruct (enqueue self data vq prio delay w).1 as [j|e] eqn:E.
    + destruct (enqueue_Ok self data vq prio delay w j E) as (row & Ht & Hid & Hfresh & _).
      destruct (enqueue_Ok_full self data vq prio delay w j E) as (_ & Hvqs & _).
      split.
      * unfold task_ids. rewrite Ht, fmap_app. apply list.NoDup_app.
        split; [done |]. split; [| apply NoDup_singleton].
        intros x Hx Hx'. apply list_elem_of_singleton in Hx'. simpl in Hx'.
        subst x. rewrite Hid in Hx. done.
      * destruct Hvqs as [[Hvq ->]|(Hvq & vq_config & _ & ->)]; [done |].
        rewrite fmap_app. apply list.NoDup_app. split; [done |].
        split; [| apply NoDup_singleton].
        intros x Hx Hx'. apply list_elem_of_singleton in Hx'. by subst x.
    + destruct (enqueue_Raise_db _ _ _ _ _ _ e E) as [Hdb _].
      unfold keys_unique, task_ids. by rewrite Hdb.
  - pose proof (receive_run_inv self max_number wait_time_seconds (same_but_leases w)
                  [] w _ (_read_same_but_leases self w)
                  (receive_run_receive self max_number wait_time_seconds w)
                  (same_but_leases_refl w)) as (Hq & _ & _ & _ & _ & _ & Ht).
    split; [| by rewrite Hq].
    unfold task_ids.
    assert (∀ ts : list model.Task,
              model.id <$> ts = (λ c, c.1.1.1.1.1) <$> (fixed_columns <$> ts)) as Hproj.
    { intros ts. by rewrite <- list_fmap_compose. }
    by rewrite Hproj, Ht, <- Hproj.
  - destruct (ack_cases self i w) as [->|E]; [done |].
    rewrite (ack_leased_eq self w i E). unfold keys_unique, task_ids.
    cbn [snd db set_db tasks vqs].
    split; [| done].
    by rewrite (update_where_ids i (finish 100 _ _) (tasks (db w))).
  - destruct (nack_cases self i msg w) as [->|E]; [done |].
    rewrite (nack_leased_eq self w i msg E). unfold keys_unique, task_ids.
    cbn [snd db set_db tasks vqs].
    split; [| done].
    by rewrite (update_where_ids i (finish 101 _ _) (tasks (db w))).
  - by rewrite requeue_world.
Qed.

(** X14. The error log only grows.  [enqueue], [receive], [ack] and
    [requeue] leave it as it is, and [nack] leaves it as it is or appends
    one record, for the task and with the message of the call: no record is
    ever changed or removed. *)
Theorem X14_error_log_append_only (self : Coordinator) (w : World) (data : list Byte.byte)
    (vq i msg : string) (prio delay max_number wait_time_seconds : Z) :
  task_errors (db (enqueue self data vq prio delay w).2) = task_errors (db w)
  ∧ task_errors (db (receive self max_number wait_time_seconds w).2) = task_errors (db w)
  ∧ task_errors (db (ack self i w).2) = task_errors (db w)
  ∧ task_errors (db (requeue self i w).2) = task_errors (db w)
  ∧ (task_errors (db (nack self i msg w).2) = task_errors (db w)
     ∨ ∃ ts, task_errors (db (nack self i msg w).2)
             = task_errors (db w) ++ [model.mkTaskError i msg ts]).
Proof.
  split_and!.
  - destruct (enqueue self data vq prio delay w).1 as [j|e] eqn:E.
    + by destruct (enqueue_Ok_full self data vq prio delay w j E) as (_ & _ & ? & _).
    + destruct (enqueue_Raise_db _ _ _ _ _ _ e E) as [Hdb _]. by rewrite Hdb.
  - by pose proof (receive_run_inv self max_number wait_time_seconds (same_but_leases w)
                  [] w _ (_read_same_but_leases self w)
                  (receive_run_receive self max_number wait_time_seconds w)
                  (same_but_leases_refl w)) as (_ & ? & _).
  - destruct (ack_cases self i w) as [->|E]; [done |].
    by rewrite (ack_leased_eq self w i E).
  - by rewrite requeue_world.
  - destruct (nack_cases self i msg w) as [->|E]; [by left |].
    rewrite (nack_leased_eq self w i msg E). simpl.
    case_decide; [right; by eexists | left; by rewrite app_nil_r].
Qed.

(** ** Examples for the further properties *)

Lemma X3_witness :
  suppressed "h1" MoreExamples.w_hidden
  ∧ (receive Examples.self 5 0 MoreExamples.w_hidden).1 = Ok [mkTask "t1" []]
  ∧ ∀ t, t ∈ [mkTask "t1" []] → task_id t ≠ "h1".
Proof.
  assert (suppressed "h1" MoreExamples.w_hidden) as Hs.
  { intros row q Hrow Hid Hq Hname. simpl in Hrow, Hq.
    apply elem_of_cons in Hrow as [->|Hrow].
    - apply elem_of_cons in Hq as [->|Hq]; [reflexivity |].
      apply list_elem_of_singleton in Hq as ->. discriminate Hname.
    - apply list_elem_of_singleton in Hrow as ->. discriminate Hid. }
  split; [exact Hs |]. split; [vm_compute; reflexivity |].
  apply (X3_hidden_queue_not_served Examples.self 5 0 "h1" MoreExamples.w_hidden);
    [exact Hs | vm_compute; reflexivity].
Defined.

Lemma X4_witness :
  status_of Examples.w_states "leased" = Some 50
  ∧ (ack Examples.self "leased" Examples.w_states).1 = Ok true
  ∧ status_of (ack Examples.self "leased" Examples.w_states).2 "leased" = Some 100.
Proof.
  split; [reflexivity |].
  destruct (X4_ack_leased Examples.self Examples.w_states "leased" eq_refl)
    as (Hr & _ & _ & Hs & _).
  split; [exact Hr | exact Hs].
Defined.

Lemma X5_witness :
  status_of Examples.w_states "leased" = Some 50
  ∧ (receive Examples.self 5 0 (ack Examples.self "leased" Examples.w_states).2).1
    = Ok [mkTask "pending" []]
  ∧ ∀ t, t ∈ [mkTask "pending" []] → task_id t ≠ "leased".
Proof.
  split; [reflexivity |]. split; [vm_compute; reflexivity |].
  apply (X5_terminal_task_not_served Examples.self Examples.w_states "leased" "boom"
           (ack Examples.self "leased" Examples.w_states).2 5 0).
  - reflexivity.
  - left. reflexivity.
  - intros k _. vm_compute. reflexivity.
  - vm_compute. reflexivity.
Defined.

Lemma X6_witness :
  status_of Examples.w_states "leased" = Some 50
  ∧ ack Examples.self "leased" (ack Examples.self "leased" Examples.w_states).2
    = (Ok true, (ack Examples.self "leased" Examples.w_states).2)
  ∧ nack Examples.self "leased" "again"
      (nack Examples.self "leased" "boom" Examples.w_states).2
    = (Ok true, (nack Examples.self "leased" "boom" Examples.w_states).2).
Proof.
  split; [reflexivity |].
  destruct (X6_terminal_absorbs Examples.self Examples.w_states "leased" "boom" "again"
              eq_refl) as ((Ha & _) & (Hn & _)).
  split; [exact Ha | exact Hn].
Defined.

Lemma X8_witness :
  (enqueue Examples.self [] "new" 7 0 Examples.w_empty).1 = Ok "b"
  ∧ vqs (db (enqueue Examples.self [] "new" 7 0 Examples.w_empty).2)
    = [new_vq "new" (mkVQConfig 0 (mkBucket "default" 1) 30)]
  ∧ channel (enqueue Examples.self [] "new" 7 0 Examples.w_empty).2 = ["b"].
Proof.
  split; [vm_compute; reflexivity |].
  destruct (X8_enqueue_effects Examples.self [] "new" 7 0 Examples.w_empty "b")
    as (_ & Hq & _ & _ & _ & Hc); [vm_compute; reflexivity |].
  split; [| exact Hc].
  destruct Hq as [[Hin _]|(_ & vq_config & Hcfg & ->)].
  - simpl in Hin. by apply elem_of_nil in Hin.
  - simpl in Hcfg. injection Hcfg as <-. reflexivity.
Defined.

Lemma X9_witness :
  (enqueue Examples.self [] "new" 7 0 MoreExamples.w_taken).1
    = Raise (IntegrityError UNIQUE_FAILED)
  ∧ db (enqueue Examples.self [] "new" 7 0 MoreExamples.w_taken).2
    = db MoreExamples.w_taken.
Proof.
  split; [vm_compute; reflexivity |].
  apply (X9_enqueue_failure_rolls_back Examples.self [] "new" 7 0 MoreExamples.w_taken
           (IntegrityError UNIQUE_FAILED)).
  vm_compute. reflexivity.
Defined.


Lemma X11_witness :
  tasks (db Examples.w_queue) = []
  ∧ (enqueue Examples.self [] "q" 50 0 Examples.w_queue).1 = Ok "a"
  ∧ ∃ w2 w3 : World,
      receive Examples.self 1 0 (enqueue Examples.self [] "q" 50 0 Examples.w_queue).2
      = (Ok [mkTask "a" []], w2)
      ∧ ack Examples.self "a" w2 = (Ok true, w3)
      ∧ ack Examples.self "a" w3 = (Ok true, w3).
Proof.
  split; [reflexivity |]. split; [vm_compute; reflexivity |].
  apply (X11_round_trip Examples.self [] "q" 50 0 Examples.w_queue "a").
  - reflexivity.
  - intros q Hin _. simpl in Hin. apply list_elem_of_singleton in Hin as ->. reflexivity.
  - vm_compute. reflexivity.
  - intros row Hin. vm_compute in Hin. apply list_elem_of_singleton in Hin as ->.
    vm_compute. discriminate.
Defined.

Lemma X13_witness :
  keys_unique Examples.w_layers
  ∧ keys_unique (receive Examples.self 3 0 Examples.w_layers).2.
Proof.
  assert (keys_unique Examples.w_layers) as Hk.
  { split; apply (bool_decide_unpack _); vm_compute; exact I. }
  split; [exact Hk |].
  by destruct (X13_keys_stay_unique Examples.self Examples.w_layers [] "q" "t1" "boom"
                 0 0 3 0 Hk) as (_ & ? & _).
Defined.
